(** * The BOM-comparison client: results page, upload page, processing page,
      dashboard and WebSocket hook

    A shallow embedding of the client-side JavaScript of the platform
    (React pages and hooks) and the properties its specification states
    about them.

    Conventions of the embedding.
    - A JavaScript string is a [string] holding its UTF-8 bytes.  The only
      characters the code inspects (['.'], [','], the double quote, the
      line feed, ASCII letters) are single bytes that never occur inside a
      multi-byte sequence, so splitting and joining agree with JavaScript.
    - A property of a JSON object that may be missing is an [option]:
      [None] is [undefined], and also [null] where the code applies [||],
      [===], [>] or a conditional to the property, which treat the two
      alike.  The one property the code prints as it is (the supplier
      description) tells [undefined], [null] and a text apart.
    - A JavaScript number that the code only counts with is a [Z] or a
      [nat].  A number read from JSON is a [Q], the value of its decimal
      text; the engine holds the double nearest to it, [Js.to_double], and
      rounds every product and quotient to a double again.  The export's
      percent cell and the success rate, whose digits depend on that
      rounding, are computed with it; the average progress is kept as an
      exact rational.
    - React state is passed explicitly: a handler is a function from the
      state before the event to the state after it. *)

From Stdlib Require Import String Ascii List Bool Arith ZArith QArith Qround Lia.
From Stdlib Require Import DecimalString Permutation Sorted Lqa.
Import ListNotations.

Local Open Scope list_scope.
Local Open Scope string_scope.

(** ** JavaScript primitives used by the pages *)

Module Js.

(** The characters the pages look for; the double quote and the line
    feed are given by their codes. *)
Definition dquote : ascii := Ascii.ascii_of_nat 34.
Definition newline : ascii := Ascii.ascii_of_nat 10.
Definition comma : ascii := ","%char.
Definition dot : ascii := "."%char.

Definition str1 (c : ascii) : string := String c EmptyString.

(** [v || d] where [v] is a string property: [undefined] and the empty
    string are falsy. *)
Definition or_str (v : option string) (d : string) : string :=
  match v with
  | Some (String c s) => String c s
  | Some EmptyString => d
  | None => d
  end.

(** [v ? a : b] on a boolean property: a missing flag is falsy. *)
Definition truthy_flag (v : option bool) : bool :=
  match v with
  | Some b => b
  | None => false
  end.

(** [v === s] for a string property and a string literal. *)
Definition str_is (v : option string) (s : string) : bool :=
  match v with
  | Some t => String.eqb t s
  | None => false
  end.

(** [`${z}`] for an integral number (below 1e21 in size, where the
    engine still prints every digit). *)
Definition num_to_string (z : Z) : string :=
  NilZero.string_of_int (Z.to_int z).

(** A property that the code prints as it is: missing, [null], or a
    text. *)
Inductive Printed : Type :=
| PUndefined
| PNull
| PText (s : string).

(** [`${v}`] for such a property: a missing one and [null] print as the
    words. *)
Definition template_str (v : Printed) : string :=
  match v with
  | PText s => s
  | PNull => "null"
  | PUndefined => "undefined"
  end.

(** [v || 0] for a numeric property that is divided or rounded. *)
Definition or_zero (v : option Q) : Q :=
  match v with
  | Some q => q
  | None => 0%Q
  end.

(** [Math.round]: the nearest integer, halves going up. *)
Definition math_round (x : Q) : Z := Qfloor (x + (1 # 2)).

(** The power of two [2^e], for any integer [e]. *)
Definition pow2 (e : Z) : Q :=
  if (0 <=? e)%Z then inject_Z (2 ^ e) else 1 / inject_Z (2 ^ (- e)).

(** The binary exponent of a positive number: [2^l <= x < 2^(l+1)]. *)
Definition floor_log2 (x : Q) : Z :=
  let d := (Z.log2 (Qnum x) - Z.log2 (Zpos (Qden x)))%Z in
  if Qle_bool (pow2 d) x then d else (d - 1)%Z.

(** The nearest integer, a half going to the even neighbour. *)
Definition round_half_even (y : Q) : Z :=
  let f := Qfloor y in
  match Qcompare (y - inject_Z f) (1 # 2) with
  | Lt => f
  | Gt => (f + 1)%Z
  | Eq => if Z.even f then f else (f + 1)%Z
  end.

(** The double nearest to a positive number: 53 significant bits, the
    last one not below [2^-1074], ties to the even significand. *)
Definition to_double_pos (x : Q) : Q :=
  let e := Z.max (floor_log2 x - 52) (-1074) in
  inject_Z (round_half_even (x / pow2 e)) * pow2 e.

(** The value of the double that the engine holds for the real number
    [x]: what [JSON.parse] gives for a decimal text, and what [*] and [/]
    give for the exact product or quotient of two doubles (IEEE 754
    binary64, round to nearest, ties to even).  Numbers of size [2^1024]
    and more, which the engine turns into [Infinity], are outside the
    embedding. *)
Definition to_double (x : Q) : Q :=
  match Qnum x with
  | Z0 => 0
  | Zpos _ => to_double_pos x
  | Zneg _ => - to_double_pos (- x)
  end.

(** A numeric property as the engine holds it. *)
Definition read_number (v : option Q) : option Q :=
  match v with
  | Some q => Some (to_double q)
  | None => None
  end.

(** [arr.join(sep)]. *)
Fixpoint join (sep : string) (l : list string) : string :=
  match l with
  | [] => EmptyString
  | [x] => x
  | x :: rest => x ++ sep ++ join sep rest
  end.

(** [s.split(c)] for a one-character separator: never empty, the last
    piece is what follows the last separator. *)
Fixpoint split (c : ascii) (s : string) : list string :=
  match s with
  | EmptyString => [EmptyString]
  | String a s' =>
      if Ascii.eqb a c then EmptyString :: split c s'
      else match split c s' with
           | piece :: rest => String a piece :: rest
           | [] => [String a EmptyString]
           end
  end.

(** [c] occurs in [s]. *)
Fixpoint has_char (c : ascii) (s : string) : bool :=
  match s with
  | EmptyString => false
  | String a s' => Ascii.eqb a c || has_char c s'
  end.

(** How many times [c] occurs in [s]. *)
Fixpoint count_char (c : ascii) (s : string) : nat :=
  match s with
  | EmptyString => 0
  | String a s' => (if Ascii.eqb a c then 1 else 0) + count_char c s'
  end.

(** [arr.map((x, index) => f(index, x))]. *)
Fixpoint map_index_from {A B : Type} (i : nat) (f : nat -> A -> B) (l : list A) : list B :=
  match l with
  | [] => []
  | x :: rest => f i x :: map_index_from (S i) f rest
  end.

Definition mapi {A B : Type} (f : nat -> A -> B) (l : list A) : list B :=
  map_index_from 0 f l.

(** [arr.findIndex(p)]: the first position whose element satisfies [p],
    and -1 when there is none. *)
Fixpoint findIndex_from {A : Type} (i : Z) (p : A -> bool) (l : list A) : Z :=
  match l with
  | [] => (-1)%Z
  | x :: rest => if p x then i else findIndex_from (i + 1)%Z p rest
  end.

Definition findIndex {A : Type} (p : A -> bool) (l : list A) : Z :=
  findIndex_from 0%Z p l.

(** [s.toLowerCase()] on the ASCII letters; the other bytes are kept.
    (The few non-ASCII letters whose lower case is an ASCII letter give
    [k] or [i], which no accepted extension contains.) *)
Definition lower_char (a : ascii) : ascii :=
  let n := nat_of_ascii a in
  if (65 <=? n)%nat && (n <=? 90)%nat then ascii_of_nat (n + 32) else a.

Fixpoint toLowerCase (s : string) : string :=
  match s with
  | EmptyString => EmptyString
  | String a s' => String (lower_char a) (toLowerCase s')
  end.

(** [arr.includes(s)]. *)
Fixpoint includes (l : list string) (s : string) : bool :=
  match l with
  | [] => false
  | x :: rest => String.eqb x s || includes rest s
  end.

(** [l1] is [l2] with some elements left out, the others in place. *)
Inductive subsequence {A : Type} : list A -> list A -> Prop :=
| subsequence_nil : subsequence [] []
| subsequence_keep (x : A) (l1 l2 : list A) :
    subsequence l1 l2 -> subsequence (x :: l1) (x :: l2)
| subsequence_skip (x : A) (l1 l2 : list A) :
    subsequence l1 l2 -> subsequence l1 (x :: l2).

End Js.

Local Close Scope Q_scope.

(** ** Results page (Results.jsx) *)

Module Results.
Import Js.

(** A cell that the backend may send as a number or as text. *)
Inductive Scalar : Type :=
| SNum (z : Z)
| SStr (s : string).

(** A match record as the results endpoint returns it; every property may
    be missing. *)
Record Match : Type := {
  qa_material_name : option string;
  qa_excerpt : option string;
  qc_process_step : option string;
  consumable_jigs_tools : option bool;
  name_mismatch : option bool;
  part_number : option string;
  pn_mismatch : option bool;
  quantity : option Scalar;
  unit_of_measure : option string;
  obsolete_pn : option bool;
  vendor_name : option string;
  kit_available : option bool;
  qa_confidence_level : option string;
  qa_action_path : option string;
  qa_classification_label : option Z;
  confidence_score : option Q;
  supplier_description : Printed;
  supplier_part_number : option string;
  reasoning : option string
}.

(** The fetched result object: [results.matches] may be missing. *)
Record ResultSet : Type := {
  matches : option (list Match)
}.

(** The three action-path symbols. *)
Definition tag_green : string := "🟢".
Definition tag_amber : string := "🟠".
Definition tag_red : string := "🔴".

Record ActionPathIcon : Type := {
  icon : string;
  text : string;
  class : string
}.

Definition getActionPathIcon (actionPath : option string) : ActionPathIcon :=
  if str_is actionPath tag_green then
    {| icon := tag_green; text := "Auto-Register"; class := "text-green-600" |}
  else if str_is actionPath tag_amber then
    {| icon := tag_amber; text := "Auto w/ Flag"; class := "text-yellow-600" |}
  else if str_is actionPath tag_red then
    {| icon := tag_red; text := "Human Intervention"; class := "text-red-600" |}
  else
    {| icon := tag_amber; text := "Auto w/ Flag"; class := "text-yellow-600" |}.

(** The [descriptions] object of [getClassificationDescription]. *)
Definition descriptions (label : Z) : option string :=
  match label with
  | 1%Z => Some "Consumable/Jigs/Tools + PN + Qty"
  | 2%Z => Some "Consumable/Jigs/Tools + PN + Spec + Qty"
  | 3%Z => Some "Consumable/Jigs/Tools (no qty)"
  | 4%Z => Some "Consumable/Jigs/Tools (no Part Number)"
  | 5%Z => Some "No Consumable/Jigs/Tools Mentioned"
  | 6%Z => Some "Consumable/Jigs/Tools + Part Number mismatch"
  | 7%Z => Some "Consumable/Jigs/Tools + Obsolete Part Number"
  | 8%Z => Some "Ambiguous Consumable/Jigs/Tools Name"
  | 9%Z => Some "Vendor Name Only"
  | 10%Z => Some "Multiple Consumable/Jigs/Tools, no mapping"
  | 11%Z => Some "Pre-assembled kit mentioned"
  | 12%Z => Some "Work Instruction mentions Consumable/Jigs/Tools only"
  | 13%Z => Some "Vendor + Kit Mentioned (no PN)"
  | _ => None
  end.

Definition getClassificationDescription (label : Z) : string :=
  or_str (descriptions label) "Unknown Classification".

(** [v || d] for a numeric property: [undefined] and 0 are falsy. *)
Definition or_num (v : option Z) (d : Z) : Z :=
  match v with
  | Some z => if (z =? 0)%Z then d else z
  | None => d
  end.

(** [v || d] for a cell that is a number or text, printed. *)
Definition or_scalar (v : option Scalar) (d : string) : string :=
  match v with
  | Some (SNum z) => if (z =? 0)%Z then d else num_to_string z
  | Some (SStr s) => or_str (Some s) d
  | None => d
  end.

(** [match.confidence_score > 0]; a missing score compares false. *)
Definition score_positive (v : option Q) : bool :=
  match read_number v with
  | Some q => negb (Qle_bool q 0)
  | None => false
  end.

(** [`${Math.round((match.confidence_score || 0) * 100)}%`]: the product
    is a double, and [Math.round] rounds that double. *)
Definition percent (v : option Q) : string :=
  num_to_string (math_round (to_double (or_zero (read_number v) * 100)%Q)) ++ "%".

Definition yes_no (v : option bool) : string :=
  if truthy_flag v then "Yes" else "No".

Definition csvHeaders : list string :=
  [ "S. No.";
    "Material Name";
    "QC Process / WI Step";
    "Consumable/Jigs/Tools";
    "Name Mismatch";
    "PN (Part Name)";
    "PN Mismatch";
    "Qty";
    "UoM";
    "Obsolete PN";
    "Vendor Name";
    "Kit Available";
    "AI Engine Processing";
    "Confidence Level";
    "Action Path (RAG)";
    "Classification Label";
    "Supplier Match";
    "Match Confidence";
    "Reason" ].

(** One element of [csvRows]: the callback of [results.matches.map]. *)
Definition csvRow (index : nat) (m : Match) : list string :=
  [ num_to_string (Z.of_nat index + 1);
    or_str (qa_material_name m) EmptyString;
    or_str (qc_process_step m) EmptyString;
    yes_no (consumable_jigs_tools m);
    yes_no (name_mismatch m);
    or_str (part_number m) EmptyString;
    yes_no (pn_mismatch m);
    or_scalar (quantity m) EmptyString;
    or_str (unit_of_measure m) EmptyString;
    yes_no (obsolete_pn m);
    or_str (vendor_name m) EmptyString;
    yes_no (kit_available m);
    "AI Processed";
    or_str (qa_confidence_level m) "Medium";
    or_str (qa_action_path m) tag_amber;
    "Label " ++ num_to_string (or_num (qa_classification_label m) 5);
    (if score_positive (confidence_score m)
     then template_str (supplier_description m) else "No Match");
    percent (confidence_score m);
    or_str (reasoning m) "No reason provided" ].

Definition csvRows (ms : list Match) : list (list string) :=
  mapi csvRow ms.

(** [`"${cell}"`]. *)
Definition quote_cell (cell : string) : string :=
  str1 dquote ++ cell ++ str1 dquote.

(** [row.map(cell => `"${cell}"`).join(',')]. *)
Definition render_row (row : list string) : string :=
  join (str1 comma) (map quote_cell row).

Definition csvContent (ms : list Match) : string :=
  join (str1 newline) (map render_row (csvHeaders :: csvRows ms)).

(** [exportQAClassificationCSV]: the text put in the downloaded file, and
    nothing when there are no results or no match array. *)
Definition exportQAClassificationCSV (results : option ResultSet) : option string :=
  match results with
  | None => None
  | Some r =>
      match matches r with
      | None => None
      | Some ms => Some (csvContent ms)
      end
  end.

(** [results.matches || []]. *)
Definition matches_or_empty (r : ResultSet) : list Match :=
  match matches r with
  | Some ms => ms
  | None => []
  end.

Definition has_tag (tag : string) (m : Match) : bool :=
  str_is (qa_action_path m) tag.

Definition greenCount (ms : list Match) : nat := length (filter (has_tag tag_green) ms).
Definition amberCount (ms : list Match) : nat := length (filter (has_tag tag_amber) ms).
Definition redCount (ms : list Match) : nat := length (filter (has_tag tag_red) ms).

(** The predicate handed to [matches.filter] when the filter is not
    ['all']. *)
Definition filter_pred (filterRAG : string) (m : Match) : bool :=
  if String.eqb filterRAG "green" then has_tag tag_green m
  else if String.eqb filterRAG "amber" then has_tag tag_amber m
  else if String.eqb filterRAG "red" then has_tag tag_red m
  else true.

Definition filteredMatches (filterRAG : string) (ms : list Match) : list Match :=
  if String.eqb filterRAG "all" then ms else filter (filter_pred filterRAG) ms.

(** The confidence cell of a table row: its text and its colour class. *)
Definition confidence_cell (m : Match) : string :=
  or_str (qa_confidence_level m) "Medium".

Definition confidence_class (m : Match) : string :=
  if str_is (qa_confidence_level m) "High" then "text-green-600"
  else if str_is (qa_confidence_level m) "Medium" then "text-yellow-600"
  else "text-red-600".

(** The classification cell of a table row: label line and description. *)
Definition classification_cell (m : Match) : string * string :=
  let label := or_num (qa_classification_label m) 5 in
  ("Label " ++ num_to_string label, getClassificationDescription label).

(** A record with every property missing. *)
Definition empty_match : Match :=
  {| qa_material_name := None; qa_excerpt := None; qc_process_step := None;
     consumable_jigs_tools := None; name_mismatch := None; part_number := None;
     pn_mismatch := None; quantity := None; unit_of_measure := None;
     obsolete_pn := None; vendor_name := None; kit_available := None;
     qa_confidence_level := None; qa_action_path := None;
     qa_classification_label := None; confidence_score := None;
     supplier_description := PUndefined; supplier_part_number := None;
     reasoning := None |}.

End Results.

(** ** Upload page (Upload.jsx) *)

Module Upload.
Import Js.

Record File : Type := {
  name : string;
  size : Z
}.

Inductive Toast : Type :=
| ToastError (msg : string)
| ToastSuccess (msg : string).

(** The React state of the page, and the toasts shown so far (newest
    first). *)
Record Page : Type := {
  qaDocument : option File;
  supplierBom : option File;
  uploading : bool;
  toasts : list Toast
}.

Definition qaDocTypes : list string := [".pdf"; ".docx"; ".doc"; ".txt"].
Definition bomTypes : list string := [".xlsx"; ".xls"; ".csv"].

(** ['.' + file.name.split('.').pop().toLowerCase()]; [split] never gives
    the empty array, so [pop] always has an element to return. *)
Definition fileExt (file : File) : string :=
  str1 dot ++ toLowerCase (last (split dot (name file)) EmptyString).

Definition toast (t : Toast) (st : Page) : Page :=
  {| qaDocument := qaDocument st; supplierBom := supplierBom st;
     uploading := uploading st; toasts := t :: toasts st |}.

Definition setQaDocument (f : option File) (st : Page) : Page :=
  {| qaDocument := f; supplierBom := supplierBom st;
     uploading := uploading st; toasts := toasts st |}.

Definition setSupplierBom (f : option File) (st : Page) : Page :=
  {| qaDocument := qaDocument st; supplierBom := f;
     uploading := uploading st; toasts := toasts st |}.

Definition handleQaDocumentSelect (file : File) (st : Page) : Page :=
  if negb (includes qaDocTypes (fileExt file)) then
    toast (ToastError ("Invalid WI/QC document type. Please upload: "
                       ++ join ", " qaDocTypes)) st
  else
    toast (ToastSuccess "WI/QC document selected") (setQaDocument (Some file) st).

Definition handleSupplierBomSelect (file : File) (st : Page) : Page :=
  if negb (includes bomTypes (fileExt file)) then
    toast (ToastError ("Invalid supplier BOM type. Please upload: "
                       ++ join ", " bomTypes)) st
  else
    toast (ToastSuccess "Item Master selected") (setSupplierBom (Some file) st).

Definition setUploading (b : bool) (st : Page) : Page :=
  {| qaDocument := qaDocument st; supplierBom := supplierBom st;
     uploading := b; toasts := toasts st |}.

(** What [AutonomousAPI.uploadDocuments] resolves to: the identifier of
    the workflow the backend created, or a failure with the detail of the
    error response when it has one. *)
Inductive UploadResponse : Type :=
| Uploaded (workflow_id : string)
| UploadFailed (detail : option string).

(** [handleStartProcessing], the backend being the function [upload]:
    the page after the handler, and the workflow it navigates to when the
    upload succeeded.  Without both files nothing is sent. *)
Definition handleStartProcessing (upload : File -> File -> UploadResponse) (st : Page)
  : Page * option string :=
  match qaDocument st, supplierBom st with
  | Some qa, Some bom =>
      match upload qa bom with
      | Uploaded workflowId =>
          (setUploading false
             (toast (ToastSuccess "Documents uploaded! Autonomous processing started with WI/QC Item classification.")
                (setUploading true st)),
           Some workflowId)
      | UploadFailed detail =>
          (setUploading false
             (toast (ToastError (or_str detail "Upload failed"))
                (setUploading true st)),
           None)
      end
  | _, _ => (toast (ToastError "Please select both documents") st, None)
  end.

Definition initial : Page :=
  {| qaDocument := None; supplierBom := None; uploading := false; toasts := [] |}.

(** A dropped file whose name has no dot at all. *)
Definition dotless_pdf : File := {| name := "pdf"; size := 2048 |}.
Definition dotless_csv : File := {| name := "CSV"; size := 2048 |}.

End Upload.

(** ** Workflow snapshots (status endpoint and WebSocket updates) *)

Module Workflows.

Record Workflow : Type := {
  workflow_id : string;
  status : string;
  progress : option Q;
  current_stage : option string;
  message : option string
}.

End Workflows.

(** ** Processing page (Processing.jsx) *)

Module Processing.
Import Js Workflows.

(** An entry of [stages]; the icon component is left out. *)
Record Stage : Type := {
  key : string;
  name : string;
  description : string
}.

Definition stages : list Stage :=
  [ {| key := "translation";
       name := "Translation";
       description := "AI agent processing Japanese document" |};
    {| key := "extraction";
       name := "Material Extraction with QA Classification";
       description := "AI agent extracting materials with QA classification (13 categories)" |};
    {| key := "supplier_bom";
       name := "Supplier BOM Processing";
       description := "AI agent processing Excel/CSV data" |};
    {| key := "comparison";
       name := "Smart Comparison with QA Integration";
       description := "AI agent matching QA materials with supplier BOM using classification" |} ].

(** [workflow] is the page state: [None] until a snapshot arrived. *)
Definition getStageStatus (workflow : option Workflow) (stageKey : string) : string :=
  match workflow with
  | None => "idle"
  | Some w =>
      let currentStageIndex := findIndex (fun s => str_is (current_stage w) (key s)) stages in
      let stageIndex := findIndex (fun s => String.eqb (key s) stageKey) stages in
      if String.eqb (status w) "error" then "error"
      else if String.eqb (status w) "completed" then "completed"
      else if (stageIndex <? currentStageIndex)%Z then "completed"
      else if (stageIndex =? currentStageIndex)%Z then "processing"
      else "idle"
  end.

(** The keys of [stages], in order. *)
Definition stage_keys : list string := map key stages.

(** A finished workflow, as the last update reports it. *)
Definition finished : Workflow :=
  {| workflow_id := "wf-1"; status := "completed"; progress := Some 100%Q;
     current_stage := Some "comparison"; message := None |}.

(** A workflow that failed while extracting. *)
Definition failed : Workflow :=
  {| workflow_id := "wf-2"; status := "error"; progress := Some 25%Q;
     current_stage := Some "extraction"; message := Some "extraction failed" |}.

End Processing.

(** ** Dashboard (Dashboard.jsx) *)

Module Dashboard.
Import Js Workflows.

Definition completedWorkflows (workflowsArray : list Workflow) : nat :=
  length (filter (fun w => String.eqb (status w) "completed") workflowsArray).

Definition processingWorkflows (workflowsArray : list Workflow) : nat :=
  length (filter (fun w => String.eqb (status w) "processing") workflowsArray).

Definition totalWorkflows (workflowsArray : list Workflow) : nat :=
  length workflowsArray.

(** [workflowsArray.reduce((sum, w) => sum + (w.progress || 0), 0)]. *)
Definition progress_sum (workflowsArray : list Workflow) : Q :=
  fold_left (fun sum w => (sum + or_zero (progress w))%Q) workflowsArray 0%Q.

Definition averageProgress (workflowsArray : list Workflow) : Q :=
  if (0 <? length workflowsArray)%nat
  then (progress_sum workflowsArray / inject_Z (Z.of_nat (length workflowsArray)))%Q
  else 0%Q.

(** The sum of the progress of every workflow, a missing one counting 0,
    written by recursion on the list. *)
Fixpoint total_progress (ws : list Workflow) : Q :=
  match ws with
  | [] => 0%Q
  | w :: rest => (or_zero (progress w) + total_progress rest)%Q
  end.

End Dashboard.

(** ** WebSocket hook (useWebSocket.js): the handlers, one socket at a time

    The hook between two runs of its mounting effect: [ws.current] is the
    only socket whose handlers can run.  The cleanup of the effect, its
    re-run on a render and the sockets these leave behind are modelled in
    [WebSocketEffect] below, which is shown to move as this module says as
    long as the effect is not run again. *)

Module WebSocket.

(** [ws.current.readyState], as far as the handlers depend on it. *)
Inductive ReadyState : Type :=
| CONNECTING
| OPEN
| CLOSED.

(** The refs and state of the hook.  [timers] are the delays of the
    reconnect timers that [setTimeout] holds and that have not fired yet;
    [reconnects] counts the [connect()] calls made by timer callbacks.
    [lastMessage] and the [onmessage] handler touch none of these and are
    left out. *)
Record Hook : Type := {
  isConnected : bool;
  error : option string;
  socket : option ReadyState;
  reconnectAttempts : Z;
  timers : list Z;
  reconnects : nat
}.

(** [connect()]: a new socket, still connecting. *)
Definition connect (st : Hook) : Hook :=
  {| isConnected := isConnected st; error := error st;
     socket := Some CONNECTING;
     reconnectAttempts := reconnectAttempts st;
     timers := timers st; reconnects := reconnects st |}.

Definition onopen (st : Hook) : Hook :=
  {| isConnected := true; error := None;
     socket := Some OPEN;
     reconnectAttempts := 0;
     timers := timers st; reconnects := reconnects st |}.

(** [Math.pow(2, reconnectAttemptsRef.current) * 1000]. *)
Definition backoff (attempts : Z) : Z := (2 ^ attempts * 1000)%Z.

Definition onclose (st : Hook) : Hook :=
  {| isConnected := false; error := error st;
     socket := Some CLOSED;
     reconnectAttempts := reconnectAttempts st;
     timers := if (reconnectAttempts st <? 5)%Z
               then (timers st ++ [backoff (reconnectAttempts st)])%list
               else timers st;
     reconnects := reconnects st |}.

Definition onerror (st : Hook) : Hook :=
  {| isConnected := isConnected st; error := Some "WebSocket connection failed";
     socket := socket st;
     reconnectAttempts := reconnectAttempts st;
     timers := timers st; reconnects := reconnects st |}.

(** The callback handed to [setTimeout]: count the attempt, reconnect. *)
Definition timer_callback (st : Hook) : Hook :=
  let st' := connect st in
  {| isConnected := isConnected st'; error := error st';
     socket := socket st';
     reconnectAttempts := reconnectAttempts st + 1;
     timers := timers st'; reconnects := S (reconnects st') |}.

(** What the browser can deliver to the hook. *)
Inductive Event : Type :=
| EvOpen
| EvClose
| EvError
| EvTimer.

(** A socket opens only while connecting and closes once; a timer fires
    only if one is pending.  An event that cannot occur leaves the hook
    as it is. *)
Definition step (st : Hook) (ev : Event) : Hook :=
  match ev with
  | EvOpen =>
      match socket st with
      | Some CONNECTING => onopen st
      | _ => st
      end
  | EvClose =>
      match socket st with
      | Some CONNECTING | Some OPEN => onclose st
      | _ => st
      end
  | EvError =>
      match socket st with
      | Some CONNECTING | Some OPEN => onerror st
      | _ => st
      end
  | EvTimer =>
      match timers st with
      | _ :: rest =>
          timer_callback
            {| isConnected := isConnected st; error := error st;
               socket := socket st;
               reconnectAttempts := reconnectAttempts st;
               timers := rest; reconnects := reconnects st |}
      | [] => st
      end
  end.

Definition run (st : Hook) (trace : list Event) : Hook :=
  fold_left step trace st.

Definition is_open_event (ev : Event) : bool :=
  match ev with
  | EvOpen => true
  | _ => false
  end.

(** The hook after its effect ran [connect()] for the first time. *)
Definition mounted : Hook :=
  connect {| isConnected := false; error := None; socket := None;
             reconnectAttempts := 0; timers := []; reconnects := 0 |}.

(** A hook with a live socket, no failure counted and no timer pending:
    the hook as mounted, or as any successful open leaves it once the
    timers have fired. *)
Definition fresh (st : Hook) : Prop :=
  reconnectAttempts st = 0%Z /\ timers st = [] /\
  (socket st = Some CONNECTING \/ socket st = Some OPEN).

(** The reconnects a hook can still make without a successful open. *)
Definition budget (st : Hook) : nat :=
  match timers st, socket st with
  | _ :: _, _ => Z.to_nat (5 - reconnectAttempts st)
  | [], Some CLOSED => 0
  | [], None => 0
  | [], _ => Z.to_nat (5 - reconnectAttempts st)
  end.

(** At most one timer is pending, and only for a closed socket that is
    still below the limit. *)
Definition timers_ok (st : Hook) : Prop :=
  timers st = [] \/
  (exists t, timers st = [t]) /\ socket st = Some CLOSED /\
  (reconnectAttempts st < 5)%Z.

(** Six connections in a row that all fail. *)
Definition six_failures : list Event :=
  [EvClose; EvTimer; EvError; EvClose; EvTimer; EvClose; EvTimer;
   EvClose; EvTimer; EvClose; EvTimer; EvClose; EvTimer; EvClose; EvTimer].

End WebSocket.

(** ** Reading an exported file back

    The repository has no CSV reader.  To state what reading an export back
    gives, this is the plain reader of the dialect the export writes: a
    line per row, each cell between two double quotes, cells separated by
    commas. *)

Module CsvReader.
Import Js Results.

Inductive Position : Type :=
| AtCell
| InCell
| AfterCell.

(** Reads a line from position [p]; inside a cell the first cell of the
    result is the one being read. *)
Fixpoint scan (p : Position) (s : string) : option (list string) :=
  match s with
  | EmptyString =>
      match p with
      | AfterCell => Some []
      | _ => None
      end
  | String c rest =>
      match p with
      | AtCell => if Ascii.eqb c dquote then scan InCell rest else None
      | InCell =>
          if Ascii.eqb c dquote then option_map (cons EmptyString) (scan AfterCell rest)
          else match scan InCell rest with
               | Some (cell :: cells) => Some (String c cell :: cells)
               | _ => None
               end
      | AfterCell => if Ascii.eqb c comma then scan AtCell rest else None
      end
  end.

Definition parse_row (line : string) : option (list string) := scan AtCell line.

Definition lines (s : string) : list string := split newline s.

Fixpoint all_rows (l : list (option (list string))) : option (list (list string)) :=
  match l with
  | [] => Some []
  | Some row :: rest => option_map (cons row) (all_rows rest)
  | None :: _ => None
  end.

Definition parse_csv (s : string) : option (list (list string)) :=
  all_rows (map parse_row (lines s)).

(** The cell of a row under a column of [csvHeaders]. *)
Definition column (i : nat) (row : list string) : string := nth i row EmptyString.
Definition col_material_name : nat := 1.
Definition col_part_number : nat := 5.
Definition col_confidence_level : nat := 13.
Definition col_match_confidence : nat := 17.

(** A text without double quote and without line feed. *)
Definition plain (s : string) : bool :=
  negb (has_char dquote s) && negb (has_char newline s).

Definition plain_opt (v : option string) : bool :=
  match v with
  | Some s => plain s
  | None => true
  end.

Definition plain_scalar (v : option Scalar) : bool :=
  match v with
  | Some (SStr s) => plain s
  | _ => true
  end.

Definition plain_printed (v : Printed) : bool :=
  match v with
  | PText s => plain s
  | _ => true
  end.

(** Every text property that the export prints is [plain]. *)
Definition plain_match (m : Match) : bool :=
  plain_opt (qa_material_name m) && plain_opt (qc_process_step m) &&
  plain_opt (part_number m) && plain_scalar (quantity m) &&
  plain_opt (unit_of_measure m) && plain_opt (vendor_name m) &&
  plain_opt (qa_confidence_level m) && plain_opt (qa_action_path m) &&
  plain_printed (supplier_description m) && plain_opt (reasoning m).

(** [sub] occurs in [s] as a contiguous piece. *)
Definition occurs_in (sub s : string) : Prop :=
  exists before after, s = before ++ sub ++ after.

(** The three properties the round trip is about. *)
Definition key_fields (m : Match) : option string * option string * option Q :=
  (qa_material_name m, part_number m, confidence_score m).

(** Two scores are the same when both are missing or they are equal as
    numbers. *)
Definition same_score (a b : option Q) : Prop :=
  match a, b with
  | Some x, Some y => (x == y)%Q
  | None, None => True
  | _, _ => False
  end.

Definition same_fields (a b : option string * option string * option Q) : Prop :=
  fst (fst a) = fst (fst b) /\ snd (fst a) = snd (fst b) /\ same_score (snd a) (snd b).

(** The round trip as the specification words it, for a reader [reparse]
    of one's choice: N records give N + 1 lines, and the reader gets the
    three properties of every record back. *)
Definition round_trip (reparse : string -> list (option string * option string * option Q)) : Prop :=
  forall ms : list Match,
    length (lines (csvContent ms)) = S (length ms) /\
    Forall2 same_fields (reparse (csvContent ms)) (map key_fields ms).

End CsvReader.

(** ** The label table of the extraction stage *)

Module Classification.
Import Js Results.

(** Modelled from the spec: the lookup table from classification label to
    action-path tag.  It belongs to the extraction stage of the backend,
    which is not among the client sources; the client only receives the
    tag in [qa_action_path].  Labels 1-2 give green, 3, 9, 11, 12 amber,
    and 4, 5, 6, 7, 8, 10, 13 red. *)
Definition action_path_of_label (label : Z) : option string :=
  if existsb (Z.eqb label) [1; 2]%Z then Some tag_green
  else if existsb (Z.eqb label) [3; 9; 11; 12]%Z then Some tag_amber
  else if existsb (Z.eqb label) [4; 5; 6; 7; 8; 10; 13]%Z then Some tag_red
  else None.

End Classification.

(** ** Sample records *)

Module Samples.
Import Js Results.

Definition with_action_path (v : option string) (m : Match) : Match :=
  {| qa_material_name := qa_material_name m; qa_excerpt := qa_excerpt m;
     qc_process_step := qc_process_step m;
     consumable_jigs_tools := consumable_jigs_tools m;
     name_mismatch := name_mismatch m; part_number := part_number m;
     pn_mismatch := pn_mismatch m; quantity := quantity m;
     unit_of_measure := unit_of_measure m; obsolete_pn := obsolete_pn m;
     vendor_name := vendor_name m; kit_available := kit_available m;
     qa_confidence_level := qa_confidence_level m;
     qa_action_path := v;
     qa_classification_label := qa_classification_label m;
     confidence_score := confidence_score m;
     supplier_description := supplier_description m;
     supplier_part_number := supplier_part_number m;
     reasoning := reasoning m |}.

Definition with_confidence_level (v : option string) (m : Match) : Match :=
  {| qa_material_name := qa_material_name m; qa_excerpt := qa_excerpt m;
     qc_process_step := qc_process_step m;
     consumable_jigs_tools := consumable_jigs_tools m;
     name_mismatch := name_mismatch m; part_number := part_number m;
     pn_mismatch := pn_mismatch m; quantity := quantity m;
     unit_of_measure := unit_of_measure m; obsolete_pn := obsolete_pn m;
     vendor_name := vendor_name m; kit_available := kit_available m;
     qa_confidence_level := v;
     qa_action_path := qa_action_path m;
     qa_classification_label := qa_classification_label m;
     confidence_score := confidence_score m;
     supplier_description := supplier_description m;
     supplier_part_number := supplier_part_number m;
     reasoning := reasoning m |}.

Definition with_score (v : option Q) (m : Match) : Match :=
  {| qa_material_name := qa_material_name m; qa_excerpt := qa_excerpt m;
     qc_process_step := qc_process_step m;
     consumable_jigs_tools := consumable_jigs_tools m;
     name_mismatch := name_mismatch m; part_number := part_number m;
     pn_mismatch := pn_mismatch m; quantity := quantity m;
     unit_of_measure := unit_of_measure m; obsolete_pn := obsolete_pn m;
     vendor_name := vendor_name m; kit_available := kit_available m;
     qa_confidence_level := qa_confidence_level m;
     qa_action_path := qa_action_path m;
     qa_classification_label := qa_classification_label m;
     confidence_score := v;
     supplier_description := supplier_description m;
     supplier_part_number := supplier_part_number m;
     reasoning := reasoning m |}.

Definition with_description (v : Printed) (m : Match) : Match :=
  {| qa_material_name := qa_material_name m; qa_excerpt := qa_excerpt m;
     qc_process_step := qc_process_step m;
     consumable_jigs_tools := consumable_jigs_tools m;
     name_mismatch := name_mismatch m; part_number := part_number m;
     pn_mismatch := pn_mismatch m; quantity := quantity m;
     unit_of_measure := unit_of_measure m; obsolete_pn := obsolete_pn m;
     vendor_name := vendor_name m; kit_available := kit_available m;
     qa_confidence_level := qa_confidence_level m;
     qa_action_path := qa_action_path m;
     qa_classification_label := qa_classification_label m;
     confidence_score := confidence_score m;
     supplier_description := v;
     supplier_part_number := supplier_part_number m;
     reasoning := reasoning m |}.

(** A complete record of a green material. *)
Definition bolt : Match :=
  {| qa_material_name := Some "Bolt, M6 x 20"; qa_excerpt := None;
     qc_process_step := Some "Step 3";
     consumable_jigs_tools := Some true; name_mismatch := Some false;
     part_number := Some "PN-1001"; pn_mismatch := Some false;
     quantity := Some (SNum 4); unit_of_measure := Some "pcs";
     obsolete_pn := Some false; vendor_name := Some "Acme";
     kit_available := Some false;
     qa_confidence_level := Some "High"; qa_action_path := Some tag_green;
     qa_classification_label := Some 1%Z;
     confidence_score := Some (123 # 1000)%Q;
     supplier_description := PText "Hex bolt M6";
     supplier_part_number := Some "S-77"; reasoning := Some "PN and quantity given" |}.

(** The same record with the score cut to two decimals. *)
Definition bolt_two_decimals : Match := with_score (Some (12 # 100)%Q) bolt.

(** The same record without an action-path tag. *)
Definition bolt_untagged : Match := with_action_path None bolt.

(** The same record with the confidence tier sent as the empty text. *)
Definition bolt_blank_level : Match := with_confidence_level (Some EmptyString) bolt.

(** A record whose material name holds a double quote (six inches). *)
Definition pipe : Match :=
  {| qa_material_name := Some ("6" ++ str1 dquote ++ " pipe, steel");
     qa_excerpt := qa_excerpt bolt; qc_process_step := qc_process_step bolt;
     consumable_jigs_tools := consumable_jigs_tools bolt;
     name_mismatch := name_mismatch bolt; part_number := part_number bolt;
     pn_mismatch := pn_mismatch bolt; quantity := quantity bolt;
     unit_of_measure := unit_of_measure bolt; obsolete_pn := obsolete_pn bolt;
     vendor_name := vendor_name bolt; kit_available := kit_available bolt;
     qa_confidence_level := qa_confidence_level bolt;
     qa_action_path := qa_action_path bolt;
     qa_classification_label := qa_classification_label bolt;
     confidence_score := confidence_score bolt;
     supplier_description := supplier_description bolt;
     supplier_part_number := supplier_part_number bolt;
     reasoning := reasoning bolt |}.

(** A red and an amber record. *)
Definition glue : Match :=
  with_confidence_level (Some "Low") (with_action_path (Some tag_red) bolt).
Definition tape : Match :=
  with_confidence_level None (with_action_path (Some tag_amber) bolt).

End Samples.

(** ** JavaScript objects used as records and as maps *)

Module JsObject.

(** A value of a parsed JSON document; objects and arrays inside a value
    are outside the model. *)
Inductive Val : Type :=
| VUndefined
| VNull
| VBool (b : bool)
| VNum (q : Q)
| VStr (s : string).

(** The own properties of an object, in the order they were added. *)
Definition obj (V : Type) : Type := list (string * V).

Fixpoint get {V : Type} (k : string) (o : obj V) : option V :=
  match o with
  | [] => None
  | (k', v) :: rest => if String.eqb k' k then Some v else get k rest
  end.

(** [o[k] = v]: an existing property keeps its place. *)
Fixpoint set {V : Type} (k : string) (v : V) (o : obj V) : obj V :=
  match o with
  | [] => [(k, v)]
  | (k', v') :: rest =>
      if String.eqb k' k then (k', v) :: rest else (k', v') :: set k v rest
  end.

(** [{...target, ...source}] once [target] is copied: the properties of
    [source] are set one by one. *)
Definition spread {V : Type} (target source : obj V) : obj V :=
  fold_left (fun acc kv => set (fst kv) (snd kv) acc) source target.

(** [{...o}]. *)
Definition copy {V : Type} (o : obj V) : obj V := spread [] o.

Definition keys {V : Type} (o : obj V) : list string := map fst o.

(** [Object.values(o)]. *)
Definition values {V : Type} (o : obj V) : list V := map snd o.

(** [o.k]. *)
Definition prop (k : string) (o : obj Val) : Val :=
  match get k o with
  | Some v => v
  | None => VUndefined
  end.

(** [v === s] for a string literal [s]. *)
Definition val_is (v : Val) (s : string) : bool :=
  match v with
  | VStr t => String.eqb t s
  | _ => false
  end.

(** No property is listed twice. *)
Definition well_formed {V : Type} (o : obj V) : Prop := NoDup (keys o).

End JsObject.

(** ** Results page: the reason chart (Results.jsx) *)

Module ReasonChart.
Import Js Results JsObject.

(** The members every object inherits from [Object.prototype].  In
    [reasonCounts[reason] || 0] the lookup finds them although
    [reasonCounts] starts empty; the counting below is the code's for
    every other reason. *)
Definition inherited_keys : list string :=
  [ "constructor"; "hasOwnProperty"; "isPrototypeOf"; "propertyIsEnumerable";
    "toLocaleString"; "toString"; "valueOf"; "__proto__";
    "__defineGetter__"; "__defineSetter__"; "__lookupGetter__"; "__lookupSetter__" ].

(** [match.reasoning || 'No reason provided']. *)
Definition reason_of (m : Match) : string :=
  or_str (reasoning m) "No reason provided".

(** [reasonCounts[reason] = (reasonCounts[reason] || 0) + 1]. *)
Definition bump (reason : string) (reasonCounts : obj nat) : obj nat :=
  set reason
      (match get reason reasonCounts with
       | Some count => count
       | None => 0
       end + 1)
      reasonCounts.

(** The object built by [matches.forEach]. *)
Definition reasonCounts (matches : list Match) : obj nat :=
  fold_left (fun counts m => bump (reason_of m) counts) matches [].

(** An entry of the chart data; the [percentage] text, printed from a
    double with [toFixed], is left out. *)
Record Slice : Type := {
  name : string;
  value : nat
}.

(** The entries are taken in the order the reasons were met
    ([Object.entries] lists keys that are array indices first); [name]
    and [value] of an entry do not depend on the order. *)
Definition prepareReasonChartData (matches : list Match) : list Slice :=
  map (fun entry => {| name := fst entry; value := snd entry |}) (reasonCounts matches).

Definition colors : list string :=
  [ "#8884d8"; "#82ca9d"; "#ffc658"; "#ff7c7c"; "#8dd1e1";
    "#d084d0"; "#ffb347"; "#87ceeb"; "#dda0dd"; "#98fb98" ].

(** [colors[index % colors.length]] for the index of a chart entry;
    [None] is [undefined]. *)
Definition getReasonColor (index : nat) : option string :=
  nth_error colors (index mod length colors).

(** The sum of the counts, and the count under one key (0 when the key
    is not there). *)
Definition sum_counts (counts : obj nat) : nat := list_sum (values counts).

Definition count_of (r : string) (counts : obj nat) : nat :=
  match get r counts with
  | Some n => n
  | None => 0
  end.

(** How many records give the reason [r]. *)
Definition reason_count (r : string) (matches : list Match) : nat :=
  length (filter (fun m => String.eqb (reason_of m) r) matches).

End ReasonChart.

(** ** Results page: the sections that fold (Results.jsx) *)

Module Sections.
Import JsObject.

(** The initial [expandedSections]. *)
Definition initialSections : obj bool :=
  [ ("qaClassification", true); ("matches", false);
    ("summary", false); ("reasonChart", false) ].

(** [{...prev, [section]: !prev[section]}], for a [section] that is no
    member of [Object.prototype]; a section not listed yet reads
    [undefined] and is added as open. *)
Definition toggleSection (section : string) (prev : obj bool) : obj bool :=
  set section
      (negb (match get section prev with
             | Some open => open
             | None => false
             end))
      (copy prev).

End Sections.

(** ** Dashboard: the cards and the recent list (Dashboard.jsx) *)

Module DashboardCards.
Import Js Workflows Dashboard.

(** [Math.round((completedWorkflows / totalWorkflows) * 100)]: the
    quotient and the product are doubles. *)
Definition successRate (workflowsArray : list Workflow) : Z :=
  math_round
    (to_double
       (to_double (inject_Z (Z.of_nat (completedWorkflows workflowsArray))
                   / inject_Z (Z.of_nat (totalWorkflows workflowsArray))) * 100)%Q).

(** The trend line of the Completed card. *)
Definition completedTrend (workflowsArray : list Workflow) : string :=
  if (0 <? totalWorkflows workflowsArray)%nat
  then num_to_string (successRate workflowsArray) ++ "% success rate"
  else EmptyString.

(** The value of the Average Progress card. *)
Definition averageProgressCard (workflowsArray : list Workflow) : string :=
  num_to_string (math_round (averageProgress workflowsArray)) ++ "%".

(** A listed workflow with the time [new Date(created_at)] stands for, in
    milliseconds; a text that is no date is outside the model. *)
Record Listed : Type := {
  snapshot : Workflow;
  created_at : Z
}.

(** Where [sort] with the comparator
    [(a, b) => new Date(b.created_at) - new Date(a.created_at)] puts an
    element that stood before the already sorted ones: after the newer
    ones and before the first that is not newer. *)
Fixpoint insert_by_date (x : Listed) (sorted : list Listed) : list Listed :=
  match sorted with
  | [] => [x]
  | y :: rest =>
      if (created_at x <? created_at y)%Z then y :: insert_by_date x rest
      else x :: y :: rest
  end.

(** [Array.prototype.sort] with that comparator.  The sort is stable, so
    its result is the one of this insertion sort. *)
Fixpoint sort_by_date (l : list Listed) : list Listed :=
  match l with
  | [] => []
  | x :: rest => insert_by_date x (sort_by_date rest)
  end.

(** [(workflowsData.workflows || []).sort(...).slice(0, 5)]. *)
Definition recentWorkflows (workflows : option (list Listed)) : list Listed :=
  firstn 5 (sort_by_date (match workflows with Some l => l | None => [] end)).

(** Where the link of a recent workflow leads. *)
Definition workflowLink (w : Workflow) : string :=
  if String.eqb (status w) "completed"
  then "/results/" ++ workflow_id w
  else "/processing/" ++ workflow_id w.

Definition not_older (a b : Listed) : Prop := (created_at b <= created_at a)%Z.

End DashboardCards.


(** ** The workflow store (useWorkflow.jsx) *)

Module WorkflowStore.
Import JsObject.

Section Store.

(** The statistics object of the agents, which the store only keeps. *)
Variable Stats : Type.

(** How the engine prints a number ([Number::toString]). *)
Variable number_to_string : Q -> string.

(** A value used as a property key or joined to a text. *)
Definition to_string (v : Val) : string :=
  match v with
  | VUndefined => "undefined"
  | VNull => "null"
  | VBool true => "true"
  | VBool false => "false"
  | VNum q => number_to_string q
  | VStr s => s
  end.

Record State : Type := {
  workflows : obj (obj Val);
  currentWorkflowId : option string;
  agentStats : option Stats;
  loading : bool;
  error : option string
}.

Definition initialState : State :=
  {| workflows := []; currentWorkflowId := None; agentStats := None;
     loading := false; error := None |}.

(** The actions the provider's functions dispatch; the reducer is not
    reachable otherwise. *)
Inductive Action : Type :=
| SET_LOADING (payload : bool)
| SET_ERROR (payload : option string)
| CLEAR_ERROR
| SET_CURRENT_WORKFLOW (payload : option string)
| UPDATE_WORKFLOW (payload : obj Val)
| SET_WORKFLOWS (payload : list (obj Val))
| SET_AGENT_STATS (payload : Stats).

(** [state.workflows[id]] as [{...state.workflows[id]}] reads it: nothing
    when the store has no such workflow. *)
Definition stored (id : string) (ws : obj (obj Val)) : obj Val :=
  match get id ws with
  | Some w => w
  | None => []
  end.

(** The identifier a workflow object is stored under. *)
Definition id_of (w : obj Val) : string := to_string (prop "workflow_id" w).

(** The [forEach] of [SET_WORKFLOWS]. *)
Definition workflowsMap (payload : list (obj Val)) : obj (obj Val) :=
  fold_left (fun m w => set (id_of w) w m) payload [].

Definition workflowReducer (state : State) (action : Action) : State :=
  match action with
  | SET_LOADING payload =>
      {| workflows := workflows state; currentWorkflowId := currentWorkflowId state;
         agentStats := agentStats state; loading := payload; error := error state |}
  | SET_ERROR payload =>
      {| workflows := workflows state; currentWorkflowId := currentWorkflowId state;
         agentStats := agentStats state; loading := false; error := payload |}
  | CLEAR_ERROR =>
      {| workflows := workflows state; currentWorkflowId := currentWorkflowId state;
         agentStats := agentStats state; loading := loading state; error := None |}
  | SET_CURRENT_WORKFLOW payload =>
      {| workflows := workflows state; currentWorkflowId := payload;
         agentStats := agentStats state; loading := loading state; error := error state |}
  | UPDATE_WORKFLOW payload =>
      {| workflows :=
           set (id_of payload)
               (spread (copy (stored (id_of payload) (workflows state))) payload)
               (copy (workflows state));
         currentWorkflowId := currentWorkflowId state;
         agentStats := agentStats state; loading := loading state; error := error state |}
  | SET_WORKFLOWS payload =>
      {| workflows := workflowsMap payload; currentWorkflowId := currentWorkflowId state;
         agentStats := agentStats state; loading := loading state; error := error state |}
  | SET_AGENT_STATS payload =>
      {| workflows := workflows state; currentWorkflowId := currentWorkflowId state;
         agentStats := Some payload; loading := loading state; error := error state |}
  end.

(** The state after a sequence of actions. *)
Definition dispatch_all (state : State) (actions : list Action) : State :=
  fold_left workflowReducer actions state.

(** The last workflow of a [SET_WORKFLOWS] payload with the identifier
    [id]. *)
Definition last_with_id (id : string) (payload : list (obj Val)) : option (obj Val) :=
  find (fun w => String.eqb (id_of w) id) (rev payload).

End Store.

Arguments workflows {Stats} _.
Arguments currentWorkflowId {Stats} _.
Arguments agentStats {Stats} _.
Arguments loading {Stats} _.
Arguments error {Stats} _.
Arguments SET_LOADING {Stats} _.
Arguments SET_ERROR {Stats} _.
Arguments CLEAR_ERROR {Stats}.
Arguments SET_CURRENT_WORKFLOW {Stats} _.
Arguments UPDATE_WORKFLOW {Stats} _.
Arguments SET_WORKFLOWS {Stats} _.
Arguments SET_AGENT_STATS {Stats} _.
Arguments workflowReducer {Stats} _ _ _.
Arguments dispatch_all {Stats} _ _ _.

End WorkflowStore.

(** ** Processing page: the WebSocket message handler (Processing.jsx) *)

Module ProcessingMessages.
Import JsObject WorkflowStore.

Section Handler.

Variable number_to_string : Q -> string.

(** What the handler changes: the workflow shown, the toasts (newest
    first), the navigation it schedules with its delay in milliseconds,
    and the workflows handed to [updateWorkflow] (newest first). *)
Record Page : Type := {
  workflow : option (obj Val);
  toasts : list Upload.Toast;
  scheduled : list (string * Z);
  updates : list (obj Val)
}.

(** [updatedWorkflow]. *)
Definition updatedWorkflow (workflowId : string) (message : obj Val) : obj Val :=
  [ ("workflow_id", VStr workflowId);
    ("status", prop "status" message);
    ("progress", prop "progress" message);
    ("current_stage", prop "current_stage" message);
    ("message", prop "message" message);
    ("updated_at", prop "timestamp" message) ].

(** [message.type === 'autonomous_workflow_update' &&
     message.workflow_id === workflowId]. *)
Definition concerns (workflowId : string) (message : obj Val) : bool :=
  val_is (prop "type" message) "autonomous_workflow_update"
  && val_is (prop "workflow_id" message) workflowId.

(** The callback given to [useWebSocket]. *)
Definition onMessage (workflowId : string) (message : obj Val) (page : Page) : Page :=
  if concerns workflowId message then
    let updated := updatedWorkflow workflowId message in
    let status := prop "status" message in
    {| workflow := Some updated;
       toasts :=
         if val_is status "completed"
         then Upload.ToastSuccess "Processing completed!" :: toasts page
         else if val_is status "error"
         then Upload.ToastError
                ("Processing failed: "
                 ++ to_string number_to_string (prop "message" message))
              :: toasts page
         else toasts page;
       scheduled :=
         if val_is status "completed"
         then ("/results/" ++ workflowId, 2000%Z) :: scheduled page
         else scheduled page;
       updates := updated :: updates page |}
  else page.

End Handler.

End ProcessingMessages.

(** ** Sample store, update and message *)

Module StoreSamples.
Import JsObject WorkflowStore.

(** A printer of numbers that prints nothing, for samples that print no
    number. *)
Definition print_none (q : Q) : string := EmptyString.

Definition sample_stored : obj Val :=
  [ ("workflow_id", VStr "wf-1"); ("status", VStr "processing");
    ("created_at", VStr "2024-05-01T10:00:00") ].

Definition sample_update : obj Val :=
  [ ("workflow_id", VStr "wf-1"); ("status", VStr "completed") ].

Definition sample_message : obj Val :=
  [ ("type", VStr "autonomous_workflow_update"); ("workflow_id", VStr "wf-1");
    ("status", VStr "completed"); ("progress", VNum 100%Q) ].

Definition sample_state : State unit :=
  {| workflows := [("wf-1", sample_stored)]; currentWorkflowId := None;
     agentStats := None; loading := false; error := None |}.

End StoreSamples.

(** ** WebSocket hook: what the refs hold at any time *)

Module WebSocketRefs.
Import WebSocket.

(** The attempt counter stays between 0 and 5, and a pending timer is the
    only one, waits for the delay of the current count, and belongs to a
    closed socket that is still below the limit. *)
Definition refs_ok (st : Hook) : Prop :=
  (0 <= reconnectAttempts st <= 5)%Z /\
  (timers st = [] \/
   timers st = [backoff (reconnectAttempts st)] /\
   socket st = Some CLOSED /\ (reconnectAttempts st < 5)%Z).

End WebSocketRefs.

(** ** WebSocket hook with its mounting effect (useWebSocket.js) *)

Module WebSocketEffect.

(** [readyState] of a socket. *)
Inductive SocketState : Type :=
| S_CONNECTING
| S_OPEN
| S_CLOSING
| S_CLOSED.

(** A timer that [setTimeout] holds: the id it returned and its delay. *)
Record Timer : Type := {
  timer_id : nat;
  delay : Z
}.

(** The refs and state of the hook, and the sockets and timers the
    browser holds for it.  [current] is [ws.current].  [detached] are the
    sockets that [ws.current] no longer points to and that have not closed
    yet: their handlers are still attached and work on the same refs.
    [reconnectTimeout] is [reconnectTimeoutRef.current], [next_id] the id
    the next [setTimeout] returns (ids are positive), [reconnects] counts
    the [connect()] calls made by timer callbacks and [connects] all
    [connect()] calls, that is, the sockets made. *)
Record Hook : Type := {
  isConnected : bool;
  error : option string;
  current : option SocketState;
  detached : list SocketState;
  reconnectAttempts : Z;
  reconnectTimeout : option nat;
  timers : list Timer;
  next_id : nat;
  reconnects : nat;
  connects : nat
}.

Definition alive (s : SocketState) : bool :=
  match s with
  | S_CLOSED => false
  | _ => true
  end.

(** [connect()]: [ws.current] is overwritten by a new socket; the one it
    pointed to is not closed and keeps its handlers.  (The constructor
    does not throw for the address the hook builds, so the [catch] branch
    is left out.) *)
Definition connect (st : Hook) : Hook :=
  {| isConnected := isConnected st; error := error st;
     current := Some S_CONNECTING;
     detached := match current st with
                 | Some s => if alive s then detached st ++ [s] else detached st
                 | None => detached st
                 end;
     reconnectAttempts := reconnectAttempts st;
     reconnectTimeout := reconnectTimeout st;
     timers := timers st; next_id := next_id st;
     reconnects := reconnects st; connects := S (connects st) |}.

(** The handlers, which every socket of the hook carries. *)
Definition onopen (st : Hook) : Hook :=
  {| isConnected := true; error := None;
     current := current st; detached := detached st;
     reconnectAttempts := 0;
     reconnectTimeout := reconnectTimeout st;
     timers := timers st; next_id := next_id st;
     reconnects := reconnects st; connects := connects st |}.

Definition onclose (st : Hook) : Hook :=
  if (reconnectAttempts st <? 5)%Z then
    {| isConnected := false; error := error st;
       current := current st; detached := detached st;
       reconnectAttempts := reconnectAttempts st;
       reconnectTimeout := Some (next_id st);
       timers := timers st ++
                 [{| timer_id := next_id st;
                     delay := WebSocket.backoff (reconnectAttempts st) |}];
       next_id := S (next_id st);
       reconnects := reconnects st; connects := connects st |}
  else
    {| isConnected := false; error := error st;
       current := current st; detached := detached st;
       reconnectAttempts := reconnectAttempts st;
       reconnectTimeout := reconnectTimeout st;
       timers := timers st; next_id := next_id st;
       reconnects := reconnects st; connects := connects st |}.

Definition onerror (st : Hook) : Hook :=
  {| isConnected := isConnected st; error := Some "WebSocket connection failed";
     current := current st; detached := detached st;
     reconnectAttempts := reconnectAttempts st;
     reconnectTimeout := reconnectTimeout st;
     timers := timers st; next_id := next_id st;
     reconnects := reconnects st; connects := connects st |}.

(** The callback handed to [setTimeout]: count the attempt, reconnect. *)
Definition timer_callback (st : Hook) : Hook :=
  let st' := connect st in
  {| isConnected := isConnected st'; error := error st';
     current := current st'; detached := detached st';
     reconnectAttempts := reconnectAttempts st + 1;
     reconnectTimeout := reconnectTimeout st';
     timers := timers st'; next_id := next_id st';
     reconnects := S (reconnects st'); connects := connects st' |}.

(** [clearTimeout(id)]: a pending timer with that id is dropped. *)
Definition clearTimeout (id : nat) (l : list Timer) : list Timer :=
  filter (fun t => negb (timer_id t =? id)%nat) l.

(** [socket.close()]: a socket that is not closed yet starts closing; its
    [onclose] handler runs later, when the close event arrives. *)
Definition close (s : SocketState) : SocketState :=
  match s with
  | S_CONNECTING | S_OPEN => S_CLOSING
  | S_CLOSING => S_CLOSING
  | S_CLOSED => S_CLOSED
  end.

(** The cleanup of the mounting effect: the timer scheduled last is
    cleared and the current socket is told to close. *)
Definition cleanup (st : Hook) : Hook :=
  {| isConnected := isConnected st; error := error st;
     current := option_map close (current st);
     detached := detached st;
     reconnectAttempts := reconnectAttempts st;
     reconnectTimeout := reconnectTimeout st;
     timers := match reconnectTimeout st with
               | Some id => clearTimeout id (timers st)
               | None => timers st
               end;
     next_id := next_id st;
     reconnects := reconnects st; connects := connects st |}.

Definition set_current (s : SocketState) (st : Hook) : Hook :=
  {| isConnected := isConnected st; error := error st;
     current := Some s; detached := detached st;
     reconnectAttempts := reconnectAttempts st;
     reconnectTimeout := reconnectTimeout st;
     timers := timers st; next_id := next_id st;
     reconnects := reconnects st; connects := connects st |}.

Definition set_detached (l : list SocketState) (st : Hook) : Hook :=
  {| isConnected := isConnected st; error := error st;
     current := current st; detached := l;
     reconnectAttempts := reconnectAttempts st;
     reconnectTimeout := reconnectTimeout st;
     timers := timers st; next_id := next_id st;
     reconnects := reconnects st; connects := connects st |}.

Definition set_timers (l : list Timer) (st : Hook) : Hook :=
  {| isConnected := isConnected st; error := error st;
     current := current st; detached := detached st;
     reconnectAttempts := reconnectAttempts st;
     reconnectTimeout := reconnectTimeout st;
     timers := l; next_id := next_id st;
     reconnects := reconnects st; connects := connects st |}.

(** The list without its element at position [i]. *)
Fixpoint remove_at {A : Type} (i : nat) (l : list A) : list A :=
  match l, i with
  | [], _ => []
  | _ :: rest, O => rest
  | x :: rest, S j => x :: remove_at j rest
  end.

(** The list with [v] at position [i]. *)
Fixpoint put_at {A : Type} (i : nat) (v : A) (l : list A) : list A :=
  match l, i with
  | [], _ => []
  | _ :: rest, O => v :: rest
  | x :: rest, S j => x :: put_at j v rest
  end.

(** What can happen to the hook: the events of the socket in [ws.current]
    and of the detached sockets, a timer firing, a render of the component
    with a new callback (the mounting effect depends on [connect], which
    depends on [onMessage]: its cleanup runs and then the effect again),
    the unmount (the cleanup alone; React ignores the state setters from
    then on, the refs, sockets and timers go on as here), and a call of
    the exported [reconnect]. *)
Inductive Event : Type :=
| EvOpen
| EvClose
| EvError
| EvDetachedOpen (i : nat)
| EvDetachedClose (i : nat)
| EvDetachedError (i : nat)
| EvTimer (i : nat)
| EvRender
| EvUnmount
| EvReconnect.

(** A socket opens only while connecting and closes once; the timer at
    position [i] fires only if it is pending.  An event that cannot occur
    leaves the hook as it is. *)
Definition step (st : Hook) (ev : Event) : Hook :=
  match ev with
  | EvOpen =>
      match current st with
      | Some S_CONNECTING => onopen (set_current S_OPEN st)
      | _ => st
      end
  | EvClose =>
      match current st with
      | Some s => if alive s then onclose (set_current S_CLOSED st) else st
      | None => st
      end
  | EvError =>
      match current st with
      | Some s => if alive s then onerror st else st
      | None => st
      end
  | EvDetachedOpen i =>
      match nth_error (detached st) i with
      | Some S_CONNECTING => onopen (set_detached (put_at i S_OPEN (detached st)) st)
      | _ => st
      end
  | EvDetachedClose i =>
      match nth_error (detached st) i with
      | Some _ => onclose (set_detached (remove_at i (detached st)) st)
      | None => st
      end
  | EvDetachedError i =>
      match nth_error (detached st) i with
      | Some _ => onerror st
      | None => st
      end
  | EvTimer i =>
      match nth_error (timers st) i with
      | Some _ => timer_callback (set_timers (remove_at i (timers st)) st)
      | None => st
      end
  | EvRender => connect (cleanup st)
  | EvUnmount => cleanup st
  | EvReconnect => connect st
  end.

Definition run (st : Hook) (trace : list Event) : Hook :=
  fold_left step trace st.

Definition is_open_event (ev : Event) : bool :=
  match ev with
  | EvOpen | EvDetachedOpen _ => true
  | _ => false
  end.

(** The events of sockets and timers, as opposed to those of the
    component. *)
Definition is_hook_event (ev : Event) : bool :=
  match ev with
  | EvRender | EvUnmount | EvReconnect => false
  | _ => true
  end.

(** The hook after its effect ran [connect()] for the first time. *)
Definition mounted : Hook :=
  connect {| isConnected := false; error := None;
             current := None; detached := [];
             reconnectAttempts := 0; reconnectTimeout := None;
             timers := []; next_id := 1; reconnects := 0; connects := 0 |}.

(** The hook as [WebSocket.Hook] shows it: the current socket and the
    delays of the pending timers. *)
Definition ready (s : SocketState) : WebSocket.ReadyState :=
  match s with
  | S_CONNECTING => WebSocket.CONNECTING
  | S_OPEN => WebSocket.OPEN
  | S_CLOSING | S_CLOSED => WebSocket.CLOSED
  end.

Definition view (st : Hook) : WebSocket.Hook :=
  {| WebSocket.isConnected := isConnected st;
     WebSocket.error := error st;
     WebSocket.socket := option_map ready (current st);
     WebSocket.reconnectAttempts := reconnectAttempts st;
     WebSocket.timers := map delay (timers st);
     WebSocket.reconnects := reconnects st |}.

(** The same for an event; the events of detached sockets and of timers
    past the first have no counterpart. *)
Definition view_event (ev : Event) : list WebSocket.Event :=
  match ev with
  | EvOpen => [WebSocket.EvOpen]
  | EvClose => [WebSocket.EvClose]
  | EvError => [WebSocket.EvError]
  | EvTimer O => [WebSocket.EvTimer]
  | _ => []
  end.

(** One socket at a time: no detached socket, the current one not closing
    by a cleanup, and a timer pending only when the current socket has
    closed, and then only one. *)
Definition single (st : Hook) : Prop :=
  detached st = [] /\ current st <> Some S_CLOSING /\
  (timers st = [] \/ (exists t, timers st = [t]) /\ current st = Some S_CLOSED).

(** The server cannot be reached, and the page renders again while the
    first connection is being made.  The cleanup tells the first socket to
    close and a second one is made; the error of the first socket sets
    the error state, for which the page renders once more: the timer of
    the first socket is cleared, the second socket is told to close and a
    third one is made.  The second and the third socket fail, then every
    timer fires and every socket a timer makes fails.  No socket ever
    opens. *)
Definition render_then_failures : list Event :=
  [EvRender; EvDetachedError 0; EvDetachedClose 0;
   EvRender; EvDetachedError 0; EvDetachedClose 0; EvError; EvClose;
   EvTimer 0; EvError; EvClose; EvTimer 0; EvError; EvClose;
   EvTimer 0; EvError; EvClose; EvTimer 0; EvError; EvClose;
   EvTimer 0; EvError; EvClose; EvTimer 0; EvError; EvClose].

(** The same with sockets that close without an error event, so that the
    page renders only once, and with both timers firing before either of
    their sockets has failed. *)
Definition render_then_slow_failures : list Event :=
  [EvRender; EvDetachedClose 0; EvClose;
   EvTimer 0; EvTimer 0; EvDetachedClose 0; EvClose;
   EvTimer 0; EvTimer 0; EvDetachedClose 0; EvClose;
   EvTimer 0; EvTimer 0; EvDetachedClose 0; EvClose].

(** The first connection fails before any render; its error sets the
    error state, and the render for it clears the pending timer and
    connects at once.  Every later connection fails as well. *)
Definition failure_then_render : list Event :=
  [EvError; EvClose; EvRender; EvError; EvClose;
   EvTimer 0; EvError; EvClose; EvTimer 0; EvError; EvClose;
   EvTimer 0; EvError; EvClose; EvTimer 0; EvError; EvClose;
   EvTimer 0; EvError; EvClose].

(** Six connections in a row that all fail, with a stable callback. *)
Definition six_failures : list Event :=
  [EvClose; EvTimer 0; EvError; EvClose; EvTimer 0; EvClose; EvTimer 0;
   EvClose; EvTimer 0; EvClose; EvTimer 0; EvClose; EvTimer 0; EvClose; EvTimer 0].

End WebSocketEffect.

(** * Properties *)

(** ** Classification labels and action-path tags *)

Section LabelsAndTags.
Import Js Results Classification.

Lemma tags_distinct :
  tag_green <> tag_amber /\ tag_green <> tag_red /\ tag_amber <> tag_red.
Proof. repeat split; discriminate. Qed.

(** [getActionPathIcon] shows each of the three tags as itself, and
    anything else, a missing tag included, as amber. *)
Lemma getActionPathIcon_icon (v : option string) :
  icon (getActionPathIcon v) =
  if str_is v tag_green then tag_green
  else if str_is v tag_red then tag_red else tag_amber.
Proof.
  unfold getActionPathIcon.
  destruct (str_is v tag_green) eqn:Hg; [reflexivity|].
  destruct (str_is v tag_amber) eqn:Ha.
  - destruct v as [s|]; [|discriminate].
    simpl in Ha. apply String.eqb_eq in Ha. subst s. reflexivity.
  - destruct (str_is v tag_red); reflexivity.
Qed.

(** The descriptions cover the labels 1 to 13 and nothing else. *)
Lemma descriptions_domain (label : Z) :
  descriptions label <> None <-> (1 <= label <= 13)%Z.
Proof.
  split.
  - destruct label as [|p|p]; simpl; try congruence.
    intros H.
    do 4 (destruct p as [p|p|]; simpl in H; try congruence; try lia).
  - intros H.
    assert (Hcases : In label [1; 2; 3; 4; 5; 6; 7; 8; 9; 10; 11; 12; 13]%Z).
    { simpl. lia. }
    simpl in Hcases.
    repeat (destruct Hcases as [<-|Hcases]; [discriminate|]).
    contradiction.
Qed.

Lemma unknown_label_description (label : Z) :
  ~ (1 <= label <= 13)%Z ->
  getClassificationDescription label = "Unknown Classification".
Proof.
  intros H. unfold getClassificationDescription.
  destruct (descriptions label) eqn:Hd; [|reflexivity].
  exfalso. apply H. apply descriptions_domain. congruence.
Qed.

(** C1. Every classification label from 1 to 13 has exactly one
    action-path tag, one of the three, given by the fixed table: 1 and 2
    are green; 3, 9, 11 and 12 are amber; 4, 5, 6, 7, 8, 10 and 13 are red.
    The results page shows that tag as itself and has a description for
    the label. *)
Theorem label_action_path_table (label : Z) :
  (1 <= label <= 13)%Z ->
  exists tag,
    action_path_of_label label = Some tag /\
    (forall tag', action_path_of_label label = Some tag' -> tag' = tag) /\
    In tag [tag_green; tag_amber; tag_red] /\
    (tag = tag_green <-> In label [1; 2]%Z) /\
    (tag = tag_amber <-> In label [3; 9; 11; 12]%Z) /\
    (tag = tag_red <-> In label [4; 5; 6; 7; 8; 10; 13]%Z) /\
    icon (getActionPathIcon (Some tag)) = tag /\
    descriptions label <> None.
Proof.
  intros H.
  assert (Hdesc : descriptions label <> None) by (apply descriptions_domain; exact H).
  assert (Hcases : In label [1; 2; 3; 4; 5; 6; 7; 8; 9; 10; 11; 12; 13]%Z).
  { simpl. lia. }
  simpl in Hcases.
  repeat (destruct Hcases as [<-|Hcases];
          [ eexists; split; [reflexivity|];
            split; [intros tag' Ht; compute in Ht; injection Ht as <-; reflexivity|];
            repeat split; simpl; intros;
            try discriminate; try exact Hdesc; try (intuition (lia || discriminate)); auto
          | ]).
  contradiction.
Qed.

Lemma label_action_path_table_witness :
  exists tag,
    action_path_of_label 9 = Some tag /\
    (forall tag', action_path_of_label 9 = Some tag' -> tag' = tag) /\
    In tag [tag_green; tag_amber; tag_red] /\
    (tag = tag_green <-> In 9%Z [1; 2]%Z) /\
    (tag = tag_amber <-> In 9%Z [3; 9; 11; 12]%Z) /\
    (tag = tag_red <-> In 9%Z [4; 5; 6; 7; 8; 10; 13]%Z) /\
    icon (getActionPathIcon (Some tag)) = tag /\
    descriptions 9 <> None.
Proof. apply (label_action_path_table 9). lia. Defined.

(** Outside 1 to 13 the table has no entry. *)
Lemma action_path_of_label_domain (label : Z) :
  action_path_of_label label <> None <-> (1 <= label <= 13)%Z.
Proof.
  split.
  - intros H.
    destruct (Z_le_dec 1 label) as [H1|H1]; destruct (Z_le_dec label 13) as [H2|H2];
      try lia; exfalso; apply H; unfold action_path_of_label; simpl;
      repeat match goal with
             | |- context [(label =? ?k)%Z] =>
                 let E := fresh in destruct (Z.eqb_spec label k) as [E|E]; [lia|]
             end; reflexivity.
  - intros H.
    assert (Hcases : In label [1; 2; 3; 4; 5; 6; 7; 8; 9; 10; 11; 12; 13]%Z).
    { simpl. lia. }
    simpl in Hcases.
    repeat (destruct Hcases as [<-|Hcases]; [discriminate|]).
    contradiction.
Qed.

End LabelsAndTags.

(** ** Results page: counts, filter, confidence cell *)

Section ResultsPage.
Import Js Results CsvReader Samples.

Lemma subsequence_refl {A : Type} (l : list A) : subsequence l l.
Proof. induction l; constructor; assumption. Qed.

Lemma filter_subsequence {A : Type} (p : A -> bool) (l : list A) :
  subsequence (filter p l) l.
Proof.
  induction l as [|x l IH]; simpl.
  - constructor.
  - destruct (p x); constructor; exact IH.
Qed.

(** A record is counted under a tag exactly when it carries that tag. *)
Lemma has_tag_exclusive (m : Match) :
  (Nat.b2n (has_tag tag_green m) + Nat.b2n (has_tag tag_amber m)
   + Nat.b2n (has_tag tag_red m) <= 1)%nat.
Proof.
  unfold has_tag, str_is.
  destruct (qa_action_path m) as [s|]; simpl; [|lia].
  destruct (String.eqb_spec s tag_green) as [->|Hg]; simpl; [lia|].
  destruct (String.eqb_spec s tag_amber) as [->|Ha]; simpl; [lia|].
  destruct (String.eqb s tag_red); simpl; lia.
Qed.

Lemma count_filter_cons (p : Match -> bool) (m : Match) (ms : list Match) :
  length (filter p (m :: ms)) = (Nat.b2n (p m) + length (filter p ms))%nat.
Proof. simpl. destruct (p m); reflexivity. Qed.

(** X1. Every record is counted under at most one tag, so the three
    counts never add up to more than the number of records. *)
Lemma counts_le_length (ms : list Match) :
  (greenCount ms + amberCount ms + redCount ms <= length ms)%nat.
Proof.
  unfold greenCount, amberCount, redCount.
  induction ms as [|m ms IH]; [simpl; lia|].
  rewrite !count_filter_cons. simpl length.
  pose proof (has_tag_exclusive m). lia.
Qed.

(** X2. When every record carries one of the three tags, the counts add
    up to the number of records. *)
Lemma counts_sum_tagged (ms : list Match) :
  Forall (fun m => has_tag tag_green m || has_tag tag_amber m || has_tag tag_red m = true) ms ->
  (greenCount ms + amberCount ms + redCount ms = length ms)%nat.
Proof.
  unfold greenCount, amberCount, redCount.
  induction 1 as [|m ms Hm _ IH]; [reflexivity|].
  rewrite !count_filter_cons. simpl length.
  pose proof (has_tag_exclusive m).
  destruct (has_tag tag_green m), (has_tag tag_amber m), (has_tag tag_red m);
    simpl in *; try discriminate; lia.
Qed.

(** C3. A result set of one record that carries no action-path tag: the
    three counts add up to 0 while the set has 1 record, although the
    table row and the exported row of that record show the amber tag. *)
Lemma untagged_record_not_counted :
  matches_or_empty {| matches := Some [bolt_untagged] |} = [bolt_untagged] /\
  (greenCount [bolt_untagged] + amberCount [bolt_untagged]
   + redCount [bolt_untagged] = 0)%nat /\
  length [bolt_untagged] = 1%nat /\
  icon (getActionPathIcon (qa_action_path bolt_untagged)) = tag_amber /\
  column 14 (csvRow 0 bolt_untagged) = tag_amber.
Proof. repeat split. Qed.

(** C8. The filter is a function of the fetched list and the selected
    value: ['all'] gives the list itself; ['green'], ['amber'] and ['red']
    give the records whose [qa_action_path] is that tag; whatever the
    value, the result keeps the order of the list and holds records of the
    list only. *)
Theorem filteredMatches_view (ms : list Match) :
  filteredMatches "all" ms = ms /\
  filteredMatches "green" ms = filter (fun m => str_is (qa_action_path m) tag_green) ms /\
  filteredMatches "amber" ms = filter (fun m => str_is (qa_action_path m) tag_amber) ms /\
  filteredMatches "red" ms = filter (fun m => str_is (qa_action_path m) tag_red) ms /\
  (forall filterRAG, subsequence (filteredMatches filterRAG ms) ms) /\
  (forall filterRAG m, In m (filteredMatches filterRAG ms) -> In m ms).
Proof.
  repeat split; try reflexivity.
  - intros filterRAG. unfold filteredMatches.
    destruct (String.eqb filterRAG "all").
    + apply subsequence_refl.
    + apply filter_subsequence.
  - intros filterRAG m. unfold filteredMatches.
    destruct (String.eqb filterRAG "all"); [auto|].
    intros H. apply filter_In in H. tauto.
Qed.

(** X4. A filter value other than all, green, amber and red shows every
    record. *)
Lemma filteredMatches_other (filterRAG : string) (ms : list Match) :
  filterRAG <> "all" -> filterRAG <> "green" ->
  filterRAG <> "amber" -> filterRAG <> "red" ->
  filteredMatches filterRAG ms = ms.
Proof.
  intros Hall Hg Ha Hr. unfold filteredMatches, filter_pred.
  apply String.eqb_neq in Hall, Hg, Ha, Hr.
  rewrite Hall, Hg, Ha, Hr.
  induction ms as [|m ms IH]; simpl; congruence.
Qed.

(** The selected records are the ones the matching count counts. *)
Lemma filteredMatches_length (ms : list Match) :
  length (filteredMatches "green" ms) = greenCount ms /\
  length (filteredMatches "amber" ms) = amberCount ms /\
  length (filteredMatches "red" ms) = redCount ms.
Proof. repeat split. Qed.

(** Counterexample to C7 as worded: a record whose [qa_confidence_level]
    is present as the empty text is shown and exported as "Medium", not
    with its own value. *)
Lemma blank_confidence_level_replaced :
  exists v,
    qa_confidence_level bolt_blank_level = Some v /\
    confidence_cell bolt_blank_level <> v /\
    column col_confidence_level (csvRow 0 bolt_blank_level) <> v.
Proof. exists EmptyString. repeat split; discriminate. Qed.

(** C7. The table cell and the exported cell of the confidence tier hold
    the same text: "Medium" when [qa_confidence_level] is missing or
    empty, and the value itself when it is a non-empty text. *)
Theorem confidence_level_default (m : Match) (index : nat) :
  column col_confidence_level (csvRow index m) = confidence_cell m /\
  (qa_confidence_level m = None \/ qa_confidence_level m = Some EmptyString ->
   confidence_cell m = "Medium") /\
  (forall v, v <> EmptyString -> qa_confidence_level m = Some v ->
             confidence_cell m = v).
Proof.
  split; [reflexivity|]. unfold confidence_cell. split.
  - intros [-> | ->]; reflexivity.
  - intros v Hv ->. destruct v; [contradiction|reflexivity].
Qed.

End ResultsPage.

(** ** Strings: joining, splitting, characters *)

Section StringFacts.
Import Js.

Lemma string_app_assoc (a b c : string) : (a ++ b) ++ c = a ++ b ++ c.
Proof. induction a as [|x a IH]; simpl; [reflexivity|]. now rewrite IH. Qed.

Lemma string_app_nil_r (a : string) : a ++ EmptyString = a.
Proof. induction a as [|x a IH]; simpl; [reflexivity|]. now rewrite IH. Qed.

Lemma has_char_app (c : ascii) (a b : string) :
  has_char c (a ++ b) = has_char c a || has_char c b.
Proof.
  induction a as [|x a IH]; simpl; [reflexivity|].
  rewrite IH. apply orb_assoc.
Qed.

(** [join] on a list with at least two elements. *)
Lemma join_cons (sep x y : string) (rest : list string) :
  join sep (x :: y :: rest) = x ++ sep ++ join sep (y :: rest).
Proof. reflexivity. Qed.

Lemma has_char_join (c : ascii) (sep : string) (l : list string) :
  has_char c sep = false ->
  Forall (fun s => has_char c s = false) l ->
  has_char c (join sep l) = false.
Proof.
  intros Hsep H. induction H as [|x l Hx Hl IH]; [reflexivity|].
  destruct l as [|y rest]; [exact Hx|].
  rewrite join_cons, !has_char_app, Hx, Hsep, IH. reflexivity.
Qed.

Lemma split_not_nil (c : ascii) (s : string) : split c s <> [].
Proof.
  induction s as [|a s IH]; simpl; [discriminate|].
  destruct (Ascii.eqb a c); [discriminate|].
  destruct (split c s); discriminate.
Qed.

(** A text without the separator is its own single piece. *)
Lemma split_without (c : ascii) (s : string) :
  has_char c s = false -> split c s = [s].
Proof.
  induction s as [|a s IH]; simpl; [reflexivity|].
  intros H. apply orb_false_iff in H as [Ha Hs].
  rewrite Ha, (IH Hs). reflexivity.
Qed.

(** The first piece ends at the first separator. *)
Lemma split_at_first (c : ascii) (a rest : string) :
  has_char c a = false ->
  split c (a ++ String c rest) = a :: split c rest.
Proof.
  induction a as [|x a IH]; simpl; intros H.
  - now rewrite Ascii.eqb_refl.
  - apply orb_false_iff in H as [Hx Ha].
    rewrite Hx, (IH Ha). reflexivity.
Qed.

(** Splitting undoes joining when no element holds the separator. *)
Lemma split_join (c : ascii) (l : list string) :
  l <> [] ->
  Forall (fun s => has_char c s = false) l ->
  split c (join (str1 c) l) = l.
Proof.
  intros Hne H. induction H as [|x l Hx Hl IH]; [contradiction|].
  destruct l as [|y rest].
  - simpl. apply split_without, Hx.
  - rewrite join_cons.
    change (str1 c ++ join (str1 c) (y :: rest))
      with (String c (join (str1 c) (y :: rest))).
    rewrite split_at_first by exact Hx.
    rewrite IH by discriminate. reflexivity.
Qed.

(** The number of pieces is one more than the number of separators. *)
Lemma split_length (c : ascii) (s : string) :
  length (split c s) = S (count_char c s).
Proof.
  induction s as [|a s IH]; simpl; [reflexivity|].
  destruct (Ascii.eqb a c); simpl.
  - now rewrite IH.
  - destruct (split c s) as [|piece rest] eqn:E; simpl in *; lia.
Qed.

Lemma has_char_count (c : ascii) (s : string) :
  has_char c s = true -> (0 < count_char c s)%nat.
Proof.
  induction s as [|a s IH]; simpl; [discriminate|].
  destruct (Ascii.eqb a c); simpl; [lia|exact IH].
Qed.

Lemma last_cons_cons {A : Type} (x y : A) (l : list A) (d : A) :
  last (x :: y :: l) d = last (y :: l) d.
Proof. reflexivity. Qed.

(** The last piece never holds the separator. *)
Lemma split_last_without (c : ascii) (s : string) :
  has_char c (last (split c s) EmptyString) = false.
Proof.
  induction s as [|a s IH]; [reflexivity|].
  pose proof (split_not_nil c s) as Hne.
  simpl. revert IH.
  destruct (split c s) as [|p rest]; [contradiction|]. intros IH.
  destruct (Ascii.eqb a c) eqn:Hac.
  - rewrite last_cons_cons. exact IH.
  - destruct rest as [|q rest'].
    + simpl in *. now rewrite Hac, IH.
    + rewrite last_cons_cons. rewrite last_cons_cons in IH. exact IH.
Qed.

(** A text that holds the separator ends with the separator followed by
    the last piece. *)
Lemma split_last_suffix (c : ascii) (s : string) :
  has_char c s = true ->
  exists before, s = before ++ String c (last (split c s) EmptyString).
Proof.
  induction s as [|a s IH]; [discriminate|].
  pose proof (split_not_nil c s) as Hne.
  pose proof (split_without c s) as Hw.
  pose proof (split_length c s) as Hlen.
  pose proof (has_char_count c s) as Hcount.
  simpl. revert IH Hw Hlen.
  destruct (split c s) as [|p rest]; [contradiction|]. intros IH Hw Hlen.
  destruct (Ascii.eqb_spec a c) as [->|Hac]; intros Hs; simpl in Hs.
  - clear Hs. rewrite last_cons_cons.
    destruct (has_char c s) eqn:Hs.
    + destruct (IH eq_refl) as [before Hb].
      exists (String c before). simpl. f_equal. exact Hb.
    + specialize (Hw eq_refl). injection Hw as -> ->.
      exists EmptyString. reflexivity.
  - destruct (IH Hs) as [before Hb].
    destruct rest as [|q rest'].
    + specialize (Hcount Hs). simpl in Hlen. lia.
    + rewrite last_cons_cons. rewrite last_cons_cons in Hb.
      exists (String a before). simpl. f_equal. exact Hb.
Qed.

(** The last piece of a text that ends with the separator and a text
    without separator is that text. *)
Lemma split_at_first_last (c : ascii) (before ext : string) :
  has_char c ext = false ->
  last (split c (before ++ String c ext)) EmptyString = ext.
Proof.
  intros H. induction before as [|a before IH]; simpl.
  - rewrite Ascii.eqb_refl, (split_without c ext H). reflexivity.
  - assert (Hc : has_char c (before ++ String c ext) = true).
    { rewrite has_char_app. simpl. rewrite Ascii.eqb_refl.
      now rewrite orb_true_r. }
    apply has_char_count in Hc.
    pose proof (split_length c (before ++ String c ext)) as Hlen.
    revert IH Hlen.
    destruct (split c (before ++ String c ext)) as [|p rest]; intros IH Hlen.
    + simpl in Hlen. lia.
    + destruct (Ascii.eqb a c).
      * rewrite last_cons_cons. exact IH.
      * destruct rest as [|q rest'].
        -- simpl in Hlen. lia.
        -- rewrite last_cons_cons. rewrite last_cons_cons in IH. exact IH.
Qed.

(** A text without the separator is its own last piece. *)
Lemma split_last_whole (c : ascii) (s : string) :
  has_char c s = false -> last (split c s) EmptyString = s.
Proof. intros H. now rewrite split_without. Qed.

Lemma includes_In (l : list string) (s : string) :
  includes l s = true <-> In s l.
Proof.
  induction l as [|x l IH]; simpl; [split; [discriminate|contradiction]|].
  rewrite orb_true_iff, IH, String.eqb_eq. tauto.
Qed.

End StringFacts.

(** ** The CSV export *)

Section CsvExport.
Import Js Results CsvReader Samples.

Lemma plain_app (a b : string) : plain (a ++ b) = plain a && plain b.
Proof.
  unfold plain. rewrite !has_char_app.
  destruct (has_char dquote a), (has_char dquote b),
    (has_char newline a), (has_char newline b); reflexivity.
Qed.

Lemma plain_uint (d : Decimal.uint) : plain (NilEmpty.string_of_uint d) = true.
Proof. induction d; simpl; try reflexivity; exact IHd. Qed.

Lemma plain_nz_uint (d : Decimal.uint) : plain (NilZero.string_of_uint d) = true.
Proof.
  unfold NilZero.string_of_uint. destruct d; try reflexivity; apply plain_uint.
Qed.

Lemma plain_num (z : Z) : plain (num_to_string z) = true.
Proof.
  unfold num_to_string, NilZero.string_of_int.
  destruct (Z.to_int z) as [d|d]; [apply plain_nz_uint|].
  change (plain ("-" ++ NilZero.string_of_uint d) = true).
  rewrite plain_app, plain_nz_uint. reflexivity.
Qed.

Lemma plain_or_str (v : option string) (d : string) :
  plain_opt v = true -> plain d = true -> plain (or_str v d) = true.
Proof. destruct v as [[|c s]|]; simpl; auto. Qed.

Lemma plain_or_scalar (v : option Scalar) :
  plain_scalar v = true -> plain (or_scalar v EmptyString) = true.
Proof.
  destruct v as [[z|s]|]; simpl; intros H; try reflexivity.
  - destruct (z =? 0)%Z; [reflexivity|apply plain_num].
  - destruct s; [reflexivity|exact H].
Qed.

Lemma plain_template (v : Printed) :
  plain_printed v = true -> plain (template_str v) = true.
Proof. destruct v; simpl; auto. Qed.

Lemma plain_yes_no (v : option bool) : plain (yes_no v) = true.
Proof. unfold yes_no. destruct (truthy_flag v); reflexivity. Qed.

Lemma plain_percent (v : option Q) : plain (percent v) = true.
Proof. unfold percent. rewrite plain_app, plain_num. reflexivity. Qed.

(** Every cell of the row of a plain record is plain. *)
Lemma plain_csvRow (index : nat) (m : Match) :
  plain_match m = true -> forallb plain (csvRow index m) = true.
Proof.
  unfold plain_match. rewrite !andb_true_iff.
  intros [[[[[[[[[H1 H2] H3] H4] H5] H6] H7] H8] H9] H10].
  unfold csvRow. cbn [forallb].
  rewrite !plain_num, !plain_yes_no, plain_percent, plain_app, plain_num.
  rewrite !plain_or_str by (assumption || reflexivity).
  rewrite plain_or_scalar by assumption.
  destruct (score_positive (confidence_score m));
    [rewrite plain_template by assumption|]; reflexivity.
Qed.

Lemma plain_csvHeaders : forallb plain csvHeaders = true.
Proof. reflexivity. Qed.

Lemma render_row_cons (c c' : string) (rest : list string) :
  render_row (c :: c' :: rest) =
  quote_cell c ++ String comma (render_row (c' :: rest)).
Proof. reflexivity. Qed.

(** A row of plain cells is printed on one line. *)
Lemma render_row_one_line (row : list string) :
  forallb plain row = true -> has_char newline (render_row row) = false.
Proof.
  intros H. unfold render_row. apply has_char_join; [reflexivity|].
  apply Forall_map, Forall_forall. intros cell Hin.
  rewrite forallb_forall in H. specialize (H cell Hin).
  unfold plain in H. apply andb_true_iff in H as [_ H].
  unfold quote_cell. rewrite !has_char_app.
  apply negb_true_iff in H. rewrite H. reflexivity.
Qed.

(** Inside a cell the reader stops at the first double quote. *)
Lemma scan_in_cell (cell rest : string) (cells : list string) :
  has_char dquote cell = false ->
  scan AfterCell rest = Some cells ->
  scan InCell (cell ++ String dquote rest) = Some (cell :: cells).
Proof.
  intros Hcell Hrest. induction cell as [|c cell IH]; simpl.
  - rewrite Hrest. reflexivity.
  - simpl in Hcell. apply orb_false_iff in Hcell as [Hc Hcell].
    rewrite Hc, (IH Hcell). reflexivity.
Qed.

(** The reader gets the cells of a printed row back. *)
Lemma parse_row_render (row : list string) :
  row <> [] -> forallb plain row = true ->
  parse_row (render_row row) = Some row.
Proof.
  intros Hne H. induction row as [|c row IH]; [contradiction|].
  simpl in H. apply andb_true_iff in H as [Hc Hrow].
  assert (Hq : has_char dquote c = false).
  { unfold plain in Hc. apply andb_true_iff in Hc as [Hc _].
    now apply negb_true_iff in Hc. }
  destruct row as [|c' rest].
  - unfold parse_row, render_row, quote_cell. simpl.
    apply (scan_in_cell c EmptyString []); [exact Hq|reflexivity].
  - rewrite render_row_cons. unfold parse_row, quote_cell.
    rewrite !string_app_assoc. simpl.
    apply scan_in_cell; [exact Hq|]. simpl.
    apply IH; [discriminate|exact Hrow].
Qed.

Lemma all_rows_render (rows : list (list string)) :
  Forall (fun row => row <> [] /\ forallb plain row = true) rows ->
  all_rows (map parse_row (map render_row rows)) = Some rows.
Proof.
  induction 1 as [|row rows [Hne Hp] _ IH]; [reflexivity|].
  simpl. rewrite parse_row_render by assumption. now rewrite IH.
Qed.

Lemma map_index_from_length {A B : Type} (f : nat -> A -> B) (l : list A) (i : nat) :
  length (map_index_from i f l) = length l.
Proof. revert i. induction l as [|x l IH]; intros i; simpl; [reflexivity|]. now rewrite IH. Qed.

Lemma map_index_from_nth {A B : Type} (f : nat -> A -> B) (l : list A) (i k : nat) :
  nth_error (map_index_from i f l) k = option_map (f (i + k)%nat) (nth_error l k).
Proof.
  revert i k. induction l as [|x l IH]; intros i k.
  - destruct k; reflexivity.
  - destruct k as [|k]; simpl.
    + now rewrite Nat.add_0_r.
    + rewrite IH. now rewrite Nat.add_succ_r.
Qed.

Lemma map_index_from_In {A B : Type} (f : nat -> A -> B) (l : list A) (i : nat) (y : B) :
  In y (map_index_from i f l) -> exists k x, In x l /\ y = f k x.
Proof.
  revert i. induction l as [|x l IH]; intros i; simpl; [contradiction|].
  intros [<-|H].
  - exists i, x. auto.
  - destruct (IH _ H) as (k & x' & Hin & ->). exists k, x'. auto.
Qed.

Lemma csvRows_length (ms : list Match) : length (csvRows ms) = length ms.
Proof. apply map_index_from_length. Qed.

(** The row at position [i] is the row of the record at position [i]. *)
Lemma csvRows_nth (ms : list Match) (i : nat) (m : Match) :
  nth_error ms i = Some m -> nth_error (csvRows ms) i = Some (csvRow i m).
Proof.
  intros H. unfold csvRows, mapi. rewrite map_index_from_nth, H. reflexivity.
Qed.

Lemma csvRow_length (index : nat) (m : Match) :
  length (csvRow index m) = length csvHeaders.
Proof. reflexivity. Qed.

(** The rows of plain records, and the header, are non-empty and plain. *)
Lemma csv_table_plain (ms : list Match) :
  forallb plain_match ms = true ->
  Forall (fun row => row <> [] /\ forallb plain row = true) (csvHeaders :: csvRows ms).
Proof.
  intros H. constructor.
  - split; [discriminate|exact plain_csvHeaders].
  - apply Forall_forall. intros row Hin.
    apply map_index_from_In in Hin as (k & m & Hm & ->).
    split; [discriminate|].
    apply plain_csvRow. rewrite forallb_forall in H. now apply H.
Qed.

End CsvExport.

Section CsvRoundTrip.
Import Js Results CsvReader Samples.

Lemma occurs_in_refl (s : string) : occurs_in s s.
Proof. exists EmptyString, EmptyString. simpl. now rewrite string_app_nil_r. Qed.

Lemma occurs_in_trans (a b c : string) :
  occurs_in a b -> occurs_in b c -> occurs_in a c.
Proof.
  intros (p1 & q1 & ->) (p2 & q2 & ->).
  exists (p2 ++ p1), (q1 ++ q2). now rewrite !string_app_assoc.
Qed.

(** An element of a joined list occurs in the joined text. *)
Lemma occurs_in_join (sep x : string) (l : list string) :
  In x l -> occurs_in x (join sep l).
Proof.
  induction l as [|y l IH]; [contradiction|].
  intros [->|Hin].
  - destruct l as [|z rest]; [apply occurs_in_refl|].
    rewrite join_cons. exists EmptyString, (sep ++ join sep (z :: rest)). reflexivity.
  - destruct l as [|z rest]; [contradiction|].
    rewrite join_cons. destruct (IH Hin) as (before & after & ->).
    exists (y ++ sep ++ before), after. now rewrite !string_app_assoc.
Qed.

(** [Math.round] is within a half of its argument. *)
Lemma math_round_close (x : Q) :
  (x - (1 # 2) < inject_Z (math_round x) /\ inject_Z (math_round x) <= x + (1 # 2))%Q.
Proof.
  unfold math_round. split.
  - pose proof (Qlt_floor (x + (1 # 2))) as H.
    rewrite inject_Z_plus in H. simpl inject_Z in H.
    apply Qplus_lt_l with (z := 1%Q).
    eapply Qle_lt_trans; [|exact H].
    ring_simplify. apply Qle_refl.
  - apply Qfloor_le.
Qed.

(** C4. The export has a line per row under the header line, the header
    being the same 19 columns in the same order whatever the records; the
    row at position [i] is the row of the record at position [i] and has a
    cell per column; and every cell that holds a comma occurs in the
    output between two double quotes. *)
Theorem csv_rows_columns_quoted (ms : list Match) :
  exportQAClassificationCSV (Some {| matches := Some ms |}) = Some (csvContent ms) /\
  csvContent ms =
    join (str1 newline) (render_row csvHeaders :: map render_row (csvRows ms)) /\
  length csvHeaders = 19%nat /\
  length (csvRows ms) = length ms /\
  (forall i m, nth_error ms i = Some m ->
     nth_error (csvRows ms) i = Some (csvRow i m) /\
     length (csvRow i m) = length csvHeaders) /\
  (forall row cell,
     In row (csvHeaders :: csvRows ms) -> In cell row ->
     render_row row = join (str1 comma) (map quote_cell row) /\
     (has_char comma cell = true ->
      occurs_in (str1 dquote ++ cell ++ str1 dquote) (csvContent ms))).
Proof.
  split; [reflexivity|]. split; [reflexivity|]. split; [reflexivity|].
  split; [apply csvRows_length|]. split.
  - intros i m H. split; [now apply csvRows_nth|reflexivity].
  - intros row cell Hrow Hcell. split; [reflexivity|]. intros _.
    apply occurs_in_trans with (b := render_row row).
    + unfold render_row. apply occurs_in_join.
      apply (in_map quote_cell) in Hcell. exact Hcell.
    + unfold csvContent. apply occurs_in_join.
      apply (in_map render_row) in Hrow. exact Hrow.
Qed.

(** Counterexample to C2 as worded: two records that differ only in the
    score, 0.123 and 0.12, are exported as the same text, so no reader
    gets the score of both back. *)
Lemma csv_round_trip_loses_score :
  ~ exists reparse, round_trip reparse.
Proof.
  intros [reparse H].
  destruct (H [bolt]) as [_ H1]. destruct (H [bolt_two_decimals]) as [_ H2].
  assert (E : csvContent [bolt_two_decimals] = csvContent [bolt]) by (vm_compute; reflexivity).
  rewrite E in H2. simpl in H1, H2.
  inversion H1 as [|r ? rest ? [_ [_ S1]] T1 Er]; subst.
  rewrite <- Er in H2.
  inversion H2 as [|? ? ? ? [_ [_ S2]] T2]; subst.
  destruct r as [[? ?] [x|]]; simpl in S1, S2; [|contradiction].
  rewrite S1 in S2. discriminate S2.
Qed.

(** A line break inside a cell is exported as it is, so such an export
    has more lines than records plus one. *)
Lemma csv_line_break_adds_line :
  length (lines (csvContent
    [with_confidence_level (Some (str1 newline)) bolt])) = 3%nat.
Proof. vm_compute. reflexivity. Qed.

(** A double quote inside a cell is exported as it is, so the row of such
    a record cannot be read back. *)
Lemma csv_quote_breaks_row :
  parse_row (render_row (csvRow 0 pipe)) = None /\
  parse_csv (csvContent [pipe]) = None.
Proof. split; vm_compute; reflexivity. Qed.

(** The percent cell rounds the double product, not the exact one: the
    scores 0.285 and 0.015 are exported as 28% and 2%. *)
Lemma percent_rounds_double_product :
  percent (Some (285 # 1000)%Q) = "28%" /\
  percent (Some (15 # 1000)%Q) = "2%" /\
  percent (Some (123 # 1000)%Q) = "12%" /\
  percent None = "0%".
Proof. repeat split; vm_compute; reflexivity. Qed.

(** C2. For records whose texts hold no double quote and no line feed:
    the export of N records has N + 1 lines; reading it back gives the
    header and the row of every record; and in the row of a record the
    material name and the part number are the record's (the empty text
    when missing), and the match confidence is a whole number followed by
    the percent sign, the number being [Math.round] of the double that the
    engine gets for the score times 100 (0 for a missing score).  The
    score itself is not among the cells. *)
Theorem csv_export_round_trip (ms : list Match) :
  forallb plain_match ms = true ->
  length (lines (csvContent ms)) = S (length ms) /\
  parse_csv (csvContent ms) = Some (csvHeaders :: csvRows ms) /\
  (forall i m, nth_error ms i = Some m ->
     exists row,
       nth_error (csvRows ms) i = Some row /\
       column col_material_name row = or_str (qa_material_name m) EmptyString /\
       column col_part_number row = or_str (part_number m) EmptyString /\
       column col_match_confidence row =
         num_to_string
           (math_round
              (to_double (or_zero (read_number (confidence_score m)) * 100)%Q)) ++ "%").
Proof.
  intros Hplain.
  pose proof (csv_table_plain ms Hplain) as Htable.
  assert (Hlines : lines (csvContent ms) = map render_row (csvHeaders :: csvRows ms)).
  { unfold lines, csvContent. apply split_join; [discriminate|].
    apply Forall_map. eapply Forall_impl; [|exact Htable].
    intros row [_ Hrow]. now apply render_row_one_line. }
  split; [|split].
  - rewrite Hlines, length_map. simpl. now rewrite csvRows_length.
  - unfold parse_csv. rewrite Hlines. now apply all_rows_render.
  - intros i m Hm. exists (csvRow i m).
    split; [now apply csvRows_nth|]. repeat split.
Qed.

Lemma csv_export_round_trip_witness :
  forallb plain_match [bolt; glue] = true /\
  length (lines (csvContent [bolt; glue])) = 3%nat /\
  parse_csv (csvContent [bolt; glue]) = Some (csvHeaders :: csvRows [bolt; glue]) /\
  exists row,
    nth_error (csvRows [bolt; glue]) 0 = Some row /\
    column col_material_name row = "Bolt, M6 x 20" /\
    column col_part_number row = "PN-1001" /\
    column col_match_confidence row = "12%".
Proof.
  split; [reflexivity|].
  destruct (csv_export_round_trip [bolt; glue] eq_refl) as [Hlen [Hparse Hrow]].
  split; [exact Hlen|]. split; [exact Hparse|].
  destruct (Hrow 0%nat bolt eq_refl) as [row [Hnth [Hname [Hpn Hscore]]]].
  exists row. split; [exact Hnth|]. split; [exact Hname|]. split; [exact Hpn|].
  rewrite Hscore. vm_compute. reflexivity.
Defined.

End CsvRoundTrip.

(** ** Upload page: the extension check *)

Section UploadPage.
Import Js Upload.

(** The extension the check looks at: the lowered text after the last
    dot of the name, or the whole lowered name when it has no dot. *)
Lemma fileExt_with_dot (file : File) :
  has_char dot (name file) = true ->
  exists before ext,
    name file = before ++ String dot ext /\
    has_char dot ext = false /\
    fileExt file = String dot (toLowerCase ext).
Proof.
  intros H. destruct (split_last_suffix dot (name file) H) as [before Hb].
  exists before, (last (split dot (name file)) EmptyString).
  split; [exact Hb|]. split; [apply split_last_without|reflexivity].
Qed.

Lemma fileExt_without_dot (file : File) :
  has_char dot (name file) = false ->
  fileExt file = String dot (toLowerCase (name file)).
Proof. intros H. unfold fileExt. now rewrite split_last_whole. Qed.

(** A rejected file: an error toast, and both selections as they were. *)
Lemma handleQaDocumentSelect_rejects (file : File) (st : Page) :
  ~ In (fileExt file) qaDocTypes ->
  exists msg,
    handleQaDocumentSelect file st = toast (ToastError msg) st /\
    qaDocument (handleQaDocumentSelect file st) = qaDocument st /\
    supplierBom (handleQaDocumentSelect file st) = supplierBom st.
Proof.
  intros H. unfold handleQaDocumentSelect.
  destruct (includes qaDocTypes (fileExt file)) eqn:E.
  - apply includes_In in E. contradiction.
  - simpl. eexists. repeat split.
Qed.

Lemma handleQaDocumentSelect_accepts (file : File) (st : Page) :
  In (fileExt file) qaDocTypes ->
  handleQaDocumentSelect file st =
    toast (ToastSuccess "WI/QC document selected") (setQaDocument (Some file) st) /\
  qaDocument (handleQaDocumentSelect file st) = Some file.
Proof.
  intros H. apply includes_In in H. unfold handleQaDocumentSelect.
  rewrite H. split; reflexivity.
Qed.

Lemma handleSupplierBomSelect_rejects (file : File) (st : Page) :
  ~ In (fileExt file) bomTypes ->
  exists msg,
    handleSupplierBomSelect file st = toast (ToastError msg) st /\
    qaDocument (handleSupplierBomSelect file st) = qaDocument st /\
    supplierBom (handleSupplierBomSelect file st) = supplierBom st.
Proof.
  intros H. unfold handleSupplierBomSelect.
  destruct (includes bomTypes (fileExt file)) eqn:E.
  - apply includes_In in E. contradiction.
  - simpl. eexists. repeat split.
Qed.

Lemma handleSupplierBomSelect_accepts (file : File) (st : Page) :
  In (fileExt file) bomTypes ->
  handleSupplierBomSelect file st =
    toast (ToastSuccess "Item Master selected") (setSupplierBom (Some file) st) /\
  supplierBom (handleSupplierBomSelect file st) = Some file.
Proof.
  intros H. apply includes_In in H. unfold handleSupplierBomSelect.
  rewrite H. split; reflexivity.
Qed.

(** For a name with a dot the check is on the final extension: the file
    is taken exactly when the lowered text after the last dot is allowed. *)
Lemma qa_document_checked_by_extension (file : File) (st : Page) (before ext : string) :
  name file = before ++ String dot ext ->
  has_char dot ext = false ->
  (In (String dot (toLowerCase ext)) qaDocTypes ->
   qaDocument (handleQaDocumentSelect file st) = Some file) /\
  (~ In (String dot (toLowerCase ext)) qaDocTypes ->
   qaDocument (handleQaDocumentSelect file st) = qaDocument st /\
   supplierBom (handleQaDocumentSelect file st) = supplierBom st /\
   exists msg, toasts (handleQaDocumentSelect file st) = ToastError msg :: toasts st).
Proof.
  intros Hname Hext.
  assert (E : fileExt file = String dot (toLowerCase ext)).
  { unfold fileExt. rewrite Hname.
    rewrite split_at_first_last by exact Hext. reflexivity. }
  rewrite <- E. split.
  - intros H. now apply handleQaDocumentSelect_accepts.
  - intros H. destruct (handleQaDocumentSelect_rejects file st H) as (msg & Hr & Hq & Hb).
    split; [exact Hq|]. split; [exact Hb|]. exists msg. now rewrite Hr.
Qed.

(** C5. A dropped file named [pdf], with no dot and so no extension, is
    taken as the QA document, and one named [CSV] as the item list; with
    the two selected the page uploads them and goes to the workflow the
    backend (here one that names the workflow after the two files)
    created. *)
Lemma dotless_name_accepted :
  has_char dot (name dotless_pdf) = false /\
  has_char dot (name dotless_csv) = false /\
  fileExt dotless_pdf = ".pdf" /\
  fileExt dotless_csv = ".csv" /\
  qaDocument (handleQaDocumentSelect dotless_pdf initial) = Some dotless_pdf /\
  supplierBom (handleSupplierBomSelect dotless_csv initial) = Some dotless_csv /\
  snd (handleStartProcessing
         (fun qa bom => Uploaded (name qa ++ "+" ++ name bom))
         (handleSupplierBomSelect dotless_csv
            (handleQaDocumentSelect dotless_pdf initial)))
  = Some "pdf+CSV".
Proof. repeat split. Qed.

(** Nothing is uploaded, and so no workflow created, unless both files
    were taken by the two checks. *)
Lemma no_upload_without_both (upload : File -> File -> UploadResponse) (st : Page) :
  qaDocument st = None \/ supplierBom st = None ->
  handleStartProcessing upload st =
    (toast (ToastError "Please select both documents") st, None).
Proof.
  unfold handleStartProcessing.
  intros [H|H]; rewrite H; [|destruct (qaDocument st)]; reflexivity.
Qed.

End UploadPage.

(** ** Processing page: the stage-status view *)

Section ProcessingPage.
Import Js Workflows Processing.

Lemma stage_keys_order :
  stage_keys = ["translation"; "extraction"; "supplier_bom"; "comparison"].
Proof. reflexivity. Qed.

(** Before any snapshot arrived every stage is idle; a failed workflow
    shows every stage as failed and a finished one every stage as done. *)
Lemma getStageStatus_overrides (w : Workflow) (stageKey : string) :
  getStageStatus None stageKey = "idle" /\
  (status w = "error" -> getStageStatus (Some w) stageKey = "error") /\
  (status w = "completed" -> getStageStatus (Some w) stageKey = "completed").
Proof.
  split; [reflexivity|]. unfold getStageStatus. split; intros ->; reflexivity.
Qed.

(** Counterexample to C6 as worded: a finished workflow whose current
    stage is the last one shows that stage as completed, not as
    processing; a workflow that failed while extracting shows the stage
    before it as failed, not as completed. *)
Lemma finished_or_failed_stage_view :
  current_stage finished = nth_error stage_keys 3 /\
  getStageStatus (Some finished) "comparison" <> "processing" /\
  current_stage failed = nth_error stage_keys 1 /\
  getStageStatus (Some failed) "translation" <> "completed".
Proof. repeat split; discriminate. Qed.

(** C6. The stages are translation, extraction, supplier_bom and
    comparison, in that order.  For a workflow that is neither failed nor
    finished and whose current stage is at position [i] of that order,
    the stage at position [j] is shown completed when [j < i], processing
    when [j = i], and idle (not started) when [j > i]. *)
Theorem stage_status_view (w : Workflow) (i j : nat) (current k : string) :
  status w <> "error" ->
  status w <> "completed" ->
  nth_error stage_keys i = Some current ->
  current_stage w = Some current ->
  nth_error stage_keys j = Some k ->
  stage_keys = ["translation"; "extraction"; "supplier_bom"; "comparison"] /\
  getStageStatus (Some w) k =
    if (j <? i)%nat then "completed"
    else if (j =? i)%nat then "processing"
    else "idle".
Proof.
  intros Herr Hdone Hi Hcur Hj. split; [reflexivity|].
  unfold getStageStatus. rewrite Hcur.
  apply String.eqb_neq in Herr, Hdone. rewrite Herr, Hdone.
  assert (Hi4 : (i < 4)%nat).
  { apply (nth_error_Some stage_keys). rewrite Hi. discriminate. }
  assert (Hj4 : (j < 4)%nat).
  { apply (nth_error_Some stage_keys). rewrite Hj. discriminate. }
  destruct i as [|[|[|[|i]]]]; try lia; injection Hi as <-;
    (destruct j as [|[|[|[|j]]]]; try lia; injection Hj as <-; reflexivity).
Qed.

Lemma stage_status_view_witness :
  getStageStatus
    (Some {| workflow_id := "wf-3"; status := "processing";
             progress := Some 50%Q; current_stage := Some "supplier_bom";
             message := None |}) "extraction" = "completed".
Proof.
  apply (stage_status_view
           {| workflow_id := "wf-3"; status := "processing";
              progress := Some 50%Q; current_stage := Some "supplier_bom";
              message := None |} 2 1 "supplier_bom" "extraction");
    try discriminate; reflexivity.
Defined.

(** A workflow whose current stage is none of the four shows every stage
    as idle, unless it is failed or finished. *)
Lemma unknown_stage_all_idle (w : Workflow) (j : nat) (k : string) :
  status w <> "error" -> status w <> "completed" ->
  current_stage w = None ->
  nth_error stage_keys j = Some k ->
  getStageStatus (Some w) k = "idle".
Proof.
  intros Herr Hdone Hcur Hj. unfold getStageStatus. rewrite Hcur.
  apply String.eqb_neq in Herr, Hdone. rewrite Herr, Hdone.
  assert (Hj4 : (j < 4)%nat).
  { apply (nth_error_Some stage_keys). rewrite Hj. discriminate. }
  destruct j as [|[|[|[|j]]]]; try lia; injection Hj as <-; reflexivity.
Qed.

End ProcessingPage.

(** ** Dashboard: average progress *)

Section DashboardPage.
Import Js Workflows Dashboard.

Lemma fold_progress (ws : list Workflow) (acc : Q) :
  (fold_left (fun sum w => sum + or_zero (progress w)) ws acc
   == acc + total_progress ws)%Q.
Proof.
  revert acc. induction ws as [|w ws IH]; intros acc; simpl.
  - ring.
  - rewrite IH. ring.
Qed.

Lemma progress_sum_total (ws : list Workflow) :
  (progress_sum ws == total_progress ws)%Q.
Proof. unfold progress_sum. rewrite fold_progress. ring. Qed.


End DashboardPage.

(** ** WebSocket hook: bounded reconnection with one socket at a time *)

Section WebSocketHook.
Import WebSocket.

Lemma backoff_delays :
  map backoff [0; 1; 2; 3; 4]%Z = [1000; 2000; 4000; 8000; 16000]%Z.
Proof. reflexivity. Qed.

(** A close schedules one reconnect, after [2 ^ attempts * 1000] ms, when
    fewer than 5 attempts were counted, and none otherwise. *)
Lemma onclose_schedules (st : Hook) :
  timers (onclose st) =
    (if (reconnectAttempts st <? 5)%Z
     then timers st ++ [(2 ^ reconnectAttempts st * 1000)%Z]
     else timers st)%list /\
  reconnectAttempts (onclose st) = reconnectAttempts st /\
  reconnects (onclose st) = reconnects st /\
  isConnected (onclose st) = false.
Proof. repeat split. Qed.

Lemma onopen_resets (st : Hook) :
  reconnectAttempts (onopen st) = 0%Z /\ isConnected (onopen st) = true /\
  timers (onopen st) = timers st.
Proof. repeat split. Qed.

Lemma fresh_timers_ok (st : Hook) : fresh st -> timers_ok st.
Proof. intros (_ & Ht & _). left. exact Ht. Qed.

Lemma fresh_budget (st : Hook) : fresh st -> budget st = 5%nat.
Proof.
  intros (Ha & Ht & [Hs|Hs]); unfold budget; rewrite Ha, Ht, Hs; reflexivity.
Qed.

Ltac hook_simpl :=
  cbn [timers socket reconnectAttempts reconnects isConnected error app].

(** Without a successful open, a step keeps the timer discipline and
    never raises the reconnects made plus the reconnects still allowed. *)
Lemma step_budget (st : Hook) (ev : Event) :
  is_open_event ev = false ->
  timers_ok st ->
  timers_ok (step st ev) /\
  (reconnects (step st ev) + budget (step st ev) <= reconnects st + budget st)%nat.
Proof.
  intros Hev Hok. destruct ev; try discriminate; clear Hev.
  - (* close *)
    unfold step. destruct (socket st) as [[| |]|] eqn:Hs; try (split; [exact Hok|lia]).
    all: destruct Hok as [Ht|[_ [Hc _]]]; [|congruence].
    all: unfold timers_ok, budget, onclose; hook_simpl; rewrite Ht, Hs; hook_simpl.
    all: destruct (Z.ltb_spec (reconnectAttempts st) 5); hook_simpl.
    all: split; try lia; try (left; reflexivity).
    all: right; split; [eexists; reflexivity|split; [reflexivity|assumption]].
  - (* error *)
    unfold step. destruct (socket st) as [[| |]|] eqn:Hs; try (split; [exact Hok|lia]).
    all: unfold timers_ok, budget, onerror in *; hook_simpl; rewrite Hs in *.
    all: split; [exact Hok|lia].
  - (* timer *)
    unfold step. destruct (timers st) as [|t rest] eqn:Ht; [split; [exact Hok|lia]|].
    destruct Hok as [Hnil|[[t' Ht'] [Hc Hlt]]]; [congruence|].
    rewrite Ht in Ht'. injection Ht' as _ ->.
    unfold timers_ok, budget, timer_callback, connect. hook_simpl. rewrite Ht.
    split; [left; reflexivity|lia].
Qed.

Lemma run_budget (trace : list Event) (st : Hook) :
  forallb (fun ev => negb (is_open_event ev)) trace = true ->
  timers_ok st ->
  (reconnects (run st trace) + budget (run st trace) <= reconnects st + budget st)%nat.
Proof.
  revert st. induction trace as [|ev trace IH]; intros st Hno Hok.
  - apply Nat.le_refl.
  - simpl in Hno. apply andb_true_iff in Hno as [Hev Hno].
    apply negb_true_iff in Hev.
    destruct (step_budget st ev Hev Hok) as [Hok' Hle].
    specialize (IH (step st ev) Hno Hok').
    change (run st (ev :: trace)) with (run (step st ev) trace).
    eapply Nat.le_trans; [exact IH|exact Hle].
Qed.

(** With one socket at a time: after a close a reconnect is scheduled
    only while fewer than 5 attempts are counted, with a delay of
    [2 ^ attempts * 1000] ms; a successful open sets the count back to 0;
    and from a hook with no attempt counted and no timer pending, whatever
    closes, errors and timers follow without a successful open, at most 5
    reconnects are made. *)
Lemma single_socket_reconnect_bounded (st : Hook) (trace : list Event) :
  fresh st ->
  forallb (fun ev => negb (is_open_event ev)) trace = true ->
  (reconnects (run st trace) <= reconnects st + 5)%nat /\
  (forall s, (reconnectAttempts s < 5)%Z ->
     timers (onclose s) = (timers s ++ [(2 ^ reconnectAttempts s * 1000)%Z])%list) /\
  (forall s, (5 <= reconnectAttempts s)%Z -> timers (onclose s) = timers s) /\
  (forall s, reconnectAttempts (onopen s) = 0%Z).
Proof.
  intros Hfresh Hno. split.
  - pose proof (run_budget trace st Hno (fresh_timers_ok st Hfresh)) as H.
    rewrite (fresh_budget st Hfresh) in H. lia.
  - repeat split.
    + intros s Hs. unfold onclose. simpl.
      destruct (Z.ltb_spec (reconnectAttempts s) 5); [reflexivity|lia].
    + intros s Hs. unfold onclose. simpl.
      destruct (Z.ltb_spec (reconnectAttempts s) 5); [lia|reflexivity].
Qed.

(** The bound is met: when the first connection and every reconnection
    fail, 5 reconnects are made and then none is pending. *)
Lemma five_reconnects_then_none :
  reconnects (run mounted six_failures) = 5%nat /\
  timers (run mounted six_failures) = [] /\
  reconnectAttempts (run mounted six_failures) = 5%Z /\
  isConnected (run mounted six_failures) = false.
Proof. repeat split. Qed.

(** An open between failures gives the full budget back. *)
Lemma open_restores_budget (st : Hook) :
  timers_ok st -> socket st = Some CONNECTING ->
  fresh (step st EvOpen).
Proof.
  intros [Ht|[_ [Hc _]]] Hs; [|congruence].
  unfold step. rewrite Hs. unfold fresh, onopen. simpl.
  repeat split; [exact Ht|right; reflexivity].
Qed.

End WebSocketHook.

(** ** Numbers: the rounding of doubles *)

Section DoubleFacts.
Import Js.

Lemma inject_pow_pos (n : Z) : (0 <= n)%Z -> (0 < inject_Z (2 ^ n))%Q.
Proof.
  intros H. change 0%Q with (inject_Z 0). rewrite <- Zlt_Qlt.
  apply Z.pow_pos_nonneg; lia.
Qed.

Lemma pow2_pos (e : Z) : (0 < pow2 e)%Q.
Proof.
  unfold pow2. destruct (Z.leb_spec 0 e) as [H|H].
  - now apply inject_pow_pos.
  - apply Qlt_shift_div_l; [apply inject_pow_pos; lia|].
    rewrite Qmult_0_l. reflexivity.
Qed.

(** Below 1 the power is the inverse of a whole number. *)
Lemma pow2_nonpos (e : Z) :
  (e <= 0)%Z -> (pow2 e * inject_Z (2 ^ (- e)) == 1)%Q.
Proof.
  intros H. unfold pow2. destruct (Z.leb_spec 0 e) as [H0|H0].
  - assert (e = 0%Z) as -> by lia. reflexivity.
  - field. intros E. pose proof (inject_pow_pos (- e) ltac:(lia)) as P.
    rewrite E in P. discriminate P.
Qed.

Lemma round_half_even_cases (y : Q) :
  round_half_even y = Qfloor y \/
  (round_half_even y = (Qfloor y + 1)%Z /\ (inject_Z (Qfloor y) + (1 # 2) <= y)%Q).
Proof.
  unfold round_half_even.
  destruct (Qcompare (y - inject_Z (Qfloor y)) (1 # 2)) eqn:E.
  - apply Qeq_alt in E. destruct (Z.even (Qfloor y)); [now left|right].
    split; [reflexivity|]. lra.
  - now left.
  - apply Qgt_alt in E. right. split; [reflexivity|]. lra.
Qed.

Lemma round_half_even_nonneg (y : Q) :
  (0 <= y)%Q -> (0 <= round_half_even y)%Z.
Proof.
  intros H.
  assert (F : (0 <= Qfloor y)%Z).
  { change 0%Z with (Qfloor 0). now apply Qfloor_resp_le. }
  destruct (round_half_even_cases y) as [->|[-> _]]; lia.
Qed.

(** Rounding does not pass a whole number. *)
Lemma round_half_even_le_int (y : Q) (n : Z) :
  (y <= inject_Z n)%Q -> (round_half_even y <= n)%Z.
Proof.
  intros H.
  assert (F : (Qfloor y <= n)%Z).
  { rewrite <- (Qfloor_Z n). now apply Qfloor_resp_le. }
  destruct (round_half_even_cases y) as [->|[-> Hy]]; [exact F|].
  destruct (Z.eq_dec (Qfloor y) n) as [E|E]; [|lia].
  rewrite E in Hy. lra.
Qed.

(** The exponent found for a number that is at most [k]. *)
Lemma floor_log2_le (x : Q) (k : Z) :
  (0 < Qnum x)%Z -> (x <= inject_Z k)%Q ->
  (floor_log2 x <= Z.log2 k + 1)%Z.
Proof.
  intros Hpos Hle.
  assert (D : (Z.log2 (Qnum x) - Z.log2 (Zpos (Qden x)) <= Z.log2 k + 1)%Z).
  { unfold Qle in Hle. simpl in Hle. rewrite Z.mul_1_r in Hle.
    assert (Hk : (0 < k)%Z) by nia.
    pose proof (Z.log2_le_mono _ _ Hle) as M.
    pose proof (Z.log2_mul_above k (Zpos (Qden x)) ltac:(lia) ltac:(lia)) as A.
    lia. }
  unfold floor_log2.
  destruct (Qle_bool _ x); lia.
Qed.

Lemma to_double_pos_nonneg (x : Q) : (0 <= x)%Q -> (0 <= to_double_pos x)%Q.
Proof.
  intros H. unfold to_double_pos.
  set (e := Z.max (floor_log2 x - 52) (-1074)).
  pose proof (pow2_pos e) as P.
  apply Qmult_le_0_compat; [|now apply Qlt_le_weak].
  change 0%Q with (inject_Z 0). rewrite <- Zle_Qle.
  apply round_half_even_nonneg.
  apply Qle_shift_div_l; [exact P|]. now rewrite Qmult_0_l.
Qed.

Lemma to_double_pos_le_int (x : Q) (k : Z) :
  (0 < Qnum x)%Z -> (x <= inject_Z k)%Q -> (Z.log2 k <= 50)%Z ->
  (to_double_pos x <= inject_Z k)%Q.
Proof.
  intros Hpos Hle Hk. unfold to_double_pos.
  pose proof (floor_log2_le x k Hpos Hle) as L.
  set (e := Z.max (floor_log2 x - 52) (-1074)).
  assert (He : (e <= 0)%Z) by (unfold e; lia).
  pose proof (pow2_pos e) as P.
  pose proof (pow2_nonpos e He) as I.
  pose proof (inject_pow_pos (- e) ltac:(lia)) as W.
  set (w := inject_Z (2 ^ (- e))) in *.
  assert (R : (round_half_even (x / pow2 e) <= k * 2 ^ (- e))%Z).
  { apply round_half_even_le_int. rewrite inject_Z_mult. fold w.
    apply Qle_shift_div_r; [exact P|].
    rewrite <- Qmult_assoc, (Qmult_comm w), I, Qmult_1_r. exact Hle. }
  rewrite Zle_Qle, inject_Z_mult in R. fold w in R.
  apply Qle_trans with ((inject_Z k * w) * pow2 e)%Q.
  - apply Qmult_le_compat_r; [exact R|now apply Qlt_le_weak].
  - rewrite <- Qmult_assoc, (Qmult_comm w), I, Qmult_1_r. apply Qle_refl.
Qed.

(** The double of a number that is not negative is not negative. *)
Lemma to_double_nonneg (x : Q) : (0 <= x)%Q -> (0 <= to_double x)%Q.
Proof.
  intros H. unfold to_double. destruct (Qnum x) eqn:E.
  - apply Qle_refl.
  - now apply to_double_pos_nonneg.
  - unfold Qle in H. simpl in H. rewrite E in H. lia.
Qed.

(** Rounding to a double does not pass a whole number below [2^51]. *)
Lemma to_double_le_int (x : Q) (k : Z) :
  (0 <= x)%Q -> (x <= inject_Z k)%Q -> (Z.log2 k <= 50)%Z ->
  (to_double x <= inject_Z k)%Q.
Proof.
  intros H0 Hle Hk. unfold to_double. destruct (Qnum x) eqn:E.
  - eapply Qle_trans; [exact H0|exact Hle].
  - apply to_double_pos_le_int; [rewrite E; reflexivity|exact Hle|exact Hk].
  - unfold Qle in H0. simpl in H0. rewrite E in H0. lia.
Qed.

Lemma round_half_even_close (y : Q) :
  (y - (1 # 2) <= inject_Z (round_half_even y) /\
   inject_Z (round_half_even y) <= y + (1 # 2))%Q.
Proof.
  pose proof (Qfloor_le y) as Lo. pose proof (Qlt_floor y) as Hi.
  rewrite inject_Z_plus in Hi. change (inject_Z 1) with 1%Q in Hi.
  unfold round_half_even.
  destruct (Qcompare (y - inject_Z (Qfloor y)) (1 # 2)) eqn:E.
  - apply Qeq_alt in E.
    destruct (Z.even (Qfloor y));
      [|rewrite inject_Z_plus; change (inject_Z 1) with 1%Q]; split; lra.
  - apply Qlt_alt in E. split; lra.
  - apply Qgt_alt in E. rewrite inject_Z_plus. change (inject_Z 1) with 1%Q.
    split; lra.
Qed.

(** The double of a positive number that is at most [k] differs from it
    by at most half of [2^(log2 k - 51)]. *)
Lemma to_double_pos_close (x : Q) (k : Z) :
  (0 < Qnum x)%Z -> (x <= inject_Z k)%Q -> (Z.log2 k <= 50)%Z ->
  ((to_double_pos x - x) * inject_Z (2 ^ (51 - Z.log2 k)) <= 1 # 2 /\
   (x - to_double_pos x) * inject_Z (2 ^ (51 - Z.log2 k)) <= 1 # 2)%Q.
Proof.
  intros Hpos Hle Hk. unfold to_double_pos.
  pose proof (floor_log2_le x k Hpos Hle) as L.
  pose proof (Z.log2_nonneg k) as K.
  set (e := Z.max (floor_log2 x - 52) (-1074)).
  assert (He : (e <= Z.log2 k - 51)%Z) by (unfold e; lia).
  pose proof (pow2_pos e) as P.
  pose proof (pow2_nonpos e ltac:(lia)) as I.
  pose proof (inject_pow_pos (51 - Z.log2 k) ltac:(lia)) as W.
  assert (M : (inject_Z (2 ^ (51 - Z.log2 k)) <= inject_Z (2 ^ (- e)))%Q).
  { rewrite <- Zle_Qle. apply Z.pow_le_mono_r; lia. }
  destruct (round_half_even_close (x / pow2 e)) as [Lo Hi].
  set (n := inject_Z (round_half_even (x / pow2 e))) in *.
  set (p := pow2 e) in *.
  set (w := inject_Z (2 ^ (51 - Z.log2 k))) in *.
  set (w' := inject_Z (2 ^ (- e))) in *.
  assert (T : (p * w <= 1)%Q).
  { rewrite <- I. rewrite !(Qmult_comm p).
    apply Qmult_le_compat_r; [exact M|now apply Qlt_le_weak]. }
  assert (T0 : (0 <= p * w)%Q).
  { apply Qmult_le_0_compat; now apply Qlt_le_weak. }
  assert (Ex : (x == (x / p) * p)%Q).
  { field. intros E0. rewrite E0 in P. discriminate P. }
  set (y := (x / p)%Q) in *.
  assert (E1 : ((n * p - x) * w == (n - y) * (p * w))%Q) by (rewrite Ex at 1; ring).
  assert (E2 : ((x - n * p) * w == (y - n) * (p * w))%Q) by (rewrite Ex at 1; ring).
  rewrite E1, E2. set (t := (p * w)%Q) in *.
  split; nra.
Qed.

Lemma to_double_close (x : Q) (k : Z) :
  (0 <= x)%Q -> (x <= inject_Z k)%Q -> (Z.log2 k <= 50)%Z ->
  ((to_double x - x) * inject_Z (2 ^ (51 - Z.log2 k)) <= 1 # 2 /\
   (x - to_double x) * inject_Z (2 ^ (51 - Z.log2 k)) <= 1 # 2)%Q.
Proof.
  intros H0 Hle Hk. unfold to_double. destruct (Qnum x) eqn:E.
  - assert (X : (x == 0)%Q) by (unfold Qeq; simpl; rewrite E; reflexivity).
    rewrite X. split; ring_simplify; discriminate.
  - apply to_double_pos_close; [rewrite E; reflexivity|exact Hle|exact Hk].
  - unfold Qle in H0. simpl in H0. rewrite E in H0. lia.
Qed.

Lemma pow2_add (a b : Z) : (pow2 (a + b) == pow2 a * pow2 b)%Q.
Proof.
  assert (N : forall n, (0 <= n)%Z -> ~ (inject_Z (2 ^ n) == 0)%Q).
  { intros n Hn E. pose proof (inject_pow_pos n Hn) as P. rewrite E in P. discriminate P. }
  unfold pow2.
  destruct (Z.leb_spec 0 a) as [Ha|Ha], (Z.leb_spec 0 b) as [Hb|Hb],
    (Z.leb_spec 0 (a + b)) as [Hs|Hs]; try lia.
  - rewrite Z.pow_add_r by lia. now rewrite inject_Z_mult.
  - assert (E : (2 ^ a = 2 ^ (a + b) * 2 ^ (- b))%Z)
      by (rewrite <- Z.pow_add_r by lia; f_equal; lia).
    rewrite E, inject_Z_mult. field. apply N. lia.
  - assert (E : (2 ^ (- b) = 2 ^ a * 2 ^ (- (a + b)))%Z)
      by (rewrite <- Z.pow_add_r by lia; f_equal; lia).
    rewrite E, inject_Z_mult. field. split; apply N; lia.
  - assert (E : (2 ^ b = 2 ^ (a + b) * 2 ^ (- a))%Z)
      by (rewrite <- Z.pow_add_r by lia; f_equal; lia).
    rewrite E, inject_Z_mult. field. apply N. lia.
  - assert (E : (2 ^ (- a) = 2 ^ b * 2 ^ (- (a + b)))%Z)
      by (rewrite <- Z.pow_add_r by lia; f_equal; lia).
    rewrite E, inject_Z_mult. field. split; apply N; lia.
  - assert (E : (2 ^ (- (a + b)) = 2 ^ (- a) * 2 ^ (- b))%Z)
      by (rewrite <- Z.pow_add_r by lia; f_equal; lia).
    rewrite E, inject_Z_mult. field. split; apply N; lia.
Qed.

Lemma pow2_nonneg_exp (e : Z) : (0 <= e)%Z -> pow2 e = inject_Z (2 ^ e).
Proof. intros H. unfold pow2. destruct (Z.leb_spec 0 e); [reflexivity|lia]. Qed.

(** [floor_log2] is the binary exponent: [2^l <= x < 2^(l+1)]. *)
Lemma floor_log2_spec (x : Q) :
  (0 < Qnum x)%Z ->
  (pow2 (floor_log2 x) <= x /\ x < pow2 (floor_log2 x + 1))%Q.
Proof.
  intros Hpos. destruct x as [a b]. simpl in Hpos.
  destruct (Z.log2_spec a Hpos) as [A1 A2].
  destruct (Z.log2_spec (Zpos b) eq_refl) as [B1 B2].
  pose proof (Z.log2_nonneg a) as La. pose proof (Z.log2_nonneg (Zpos b)) as Lb.
  unfold floor_log2. cbn [Qnum Qden].
  set (la := Z.log2 a) in *. set (lb := Z.log2 (Zpos b)) in *.
  assert (X : (a # b == inject_Z a / inject_Z (Zpos b))%Q) by apply Qmake_Qdiv.
  assert (Bp : (0 < inject_Z (Zpos b))%Q) by reflexivity.
  rewrite Zle_Qle in A1, B1. rewrite Zlt_Qlt in A2, B2.
  rewrite <- !pow2_nonneg_exp in A1, A2, B1, B2 by lia.
  pose proof (pow2_pos (la - lb - 1)) as P1.
  pose proof (pow2_pos (la - lb + 1)) as P2.
  assert (Lo : (pow2 (la - lb - 1) < a # b)%Q).
  { rewrite X. apply Qlt_shift_div_l; [exact Bp|].
    apply Qlt_le_trans with (pow2 (la - lb - 1) * pow2 (Z.succ lb))%Q.
    - apply Qmult_lt_l; assumption.
    - rewrite <- pow2_add. replace (la - lb - 1 + Z.succ lb)%Z with la by lia.
      exact A1. }
  assert (Hi : (a # b < pow2 (la - lb + 1))%Q).
  { rewrite X. apply Qlt_shift_div_r; [exact Bp|].
    apply Qlt_le_trans with (pow2 (la - lb + 1) * pow2 lb)%Q.
    - rewrite <- pow2_add. replace (la - lb + 1 + lb)%Z with (Z.succ la) by lia.
      exact A2.
    - apply Qmult_le_l; assumption. }
  destruct (Qle_bool (pow2 (la - lb)) (a # b)) eqn:E.
  - apply Qle_bool_iff in E. split; [exact E|exact Hi].
  - split.
    + now apply Qlt_le_weak.
    + replace (la - lb - 1 + 1)%Z with (la - lb)%Z by lia.
      apply Qnot_le_lt. intros C. apply Qle_bool_iff in C. congruence.
Qed.

(** A positive number of size [2^-1074] or more does not round to 0. *)
Lemma to_double_positive (x : Q) :
  (pow2 (-1074) <= x)%Q -> (0 < to_double x)%Q.
Proof.
  intros H.
  assert (Hx : (0 < x)%Q) by (eapply Qlt_le_trans; [apply (pow2_pos (-1074))|exact H]).
  assert (Hn : (0 < Qnum x)%Z).
  { unfold Qlt in Hx. simpl in Hx. lia. }
  unfold to_double. destruct (Qnum x) eqn:E; try lia.
  unfold to_double_pos.
  destruct (floor_log2_spec x ltac:(lia)) as [Lo _].
  set (l := floor_log2 x) in *.
  set (e := Z.max (l - 52) (-1074)).
  pose proof (pow2_pos e) as P.
  assert (Hy : (1 <= x / pow2 e)%Q).
  { apply Qle_shift_div_l; [exact P|]. rewrite Qmult_1_l.
    unfold e. destruct (Z.max_spec (l - 52) (-1074)) as [[_ ->]|[_ ->]]; [exact H|].
    eapply Qle_trans; [|exact Lo].
    replace l with ((l - 52) + 52)%Z at 2 by lia. rewrite pow2_add.
    rewrite <- (Qmult_1_r (pow2 (l - 52))) at 1.
    apply Qmult_le_l; [apply pow2_pos|]. discriminate. }
  apply Qlt_le_trans with (1 * pow2 e)%Q; [now rewrite Qmult_1_l|].
  apply Qmult_le_compat_r; [|now apply Qlt_le_weak].
  change 1%Q with (inject_Z 1). rewrite <- Zle_Qle.
  assert (F : (1 <= Qfloor (x / pow2 e))%Z).
  { change 1%Z with (Qfloor 1). now apply Qfloor_resp_le. }
  destruct (round_half_even_cases (x / pow2 e)) as [->|[-> _]]; lia.
Qed.

(** A number that is not positive is not read as a positive double. *)
Lemma to_double_nonpos (x : Q) : (x <= 0)%Q -> (to_double x <= 0)%Q.
Proof.
  intros H. unfold to_double. destruct (Qnum x) eqn:E.
  - apply Qle_refl.
  - unfold Qle in H. simpl in H. rewrite E in H. lia.
  - assert (N : (0 <= - x)%Q) by lra.
    pose proof (to_double_pos_nonneg (- x) N). lra.
Qed.

End DoubleFacts.

(** ** Results page: further properties of the table, the cards and the export *)

Section ResultsPageMore.
Import Js Results CsvReader Samples.

Lemma has_tag_true (tag : string) (m : Match) :
  has_tag tag m = true <-> qa_action_path m = Some tag.
Proof.
  unfold has_tag, str_is. destruct (qa_action_path m) as [s|].
  - rewrite String.eqb_eq. split; [intros ->; reflexivity|congruence].
  - split; discriminate.
Qed.

(** X3. With the filter on a tag, every row of the table is a record that
    carries that tag and is drawn with that tag's icon, and the table has
    as many rows as the card and the selector entry of the tag count. *)
Theorem filtered_rows_carry_tag (ms : list Match) :
  (forall m, In m (filteredMatches "green" ms) ->
     qa_action_path m = Some tag_green /\
     icon (getActionPathIcon (qa_action_path m)) = tag_green) /\
  (forall m, In m (filteredMatches "amber" ms) ->
     qa_action_path m = Some tag_amber /\
     icon (getActionPathIcon (qa_action_path m)) = tag_amber) /\
  (forall m, In m (filteredMatches "red" ms) ->
     qa_action_path m = Some tag_red /\
     icon (getActionPathIcon (qa_action_path m)) = tag_red) /\
  length (filteredMatches "green" ms) = greenCount ms /\
  length (filteredMatches "amber" ms) = amberCount ms /\
  length (filteredMatches "red" ms) = redCount ms.
Proof.
  repeat split; try reflexivity;
    try (apply filter_In in H as [_ H]; apply has_tag_true in H; exact H);
    apply filter_In in H as [_ H]; apply has_tag_true in H; rewrite H; reflexivity.
Qed.

Ltac icon_cases :=
  repeat split; simpl; auto; try discriminate; intros;
  try congruence; try tauto;
  try (match goal with H : _ /\ _ |- _ => destruct H; congruence end).

(** X5. Whatever [qa_action_path] holds, the action-path cell is one of
    the three fixed icon, text and colour triples; it is the green one
    only for the green tag and the red one only for the red tag, and
    amber for everything else, a missing tag included. *)
Theorem action_path_icon_total (v : option string) :
  In (icon (getActionPathIcon v), text (getActionPathIcon v), class (getActionPathIcon v))
     [ (tag_green, "Auto-Register", "text-green-600");
       (tag_amber, "Auto w/ Flag", "text-yellow-600");
       (tag_red, "Human Intervention", "text-red-600") ] /\
  (icon (getActionPathIcon v) = tag_green <-> v = Some tag_green) /\
  (icon (getActionPathIcon v) = tag_red <-> v = Some tag_red) /\
  (icon (getActionPathIcon v) = tag_amber <->
   v <> Some tag_green /\ v <> Some tag_red).
Proof.
  unfold getActionPathIcon, str_is.
  destruct v as [s|]; simpl.
  - destruct (String.eqb_spec s tag_green) as [->|Hg]; simpl; [icon_cases|].
    destruct (String.eqb_spec s tag_amber) as [->|Ha]; simpl; [icon_cases|].
    destruct (String.eqb_spec s tag_red) as [->|Hr]; simpl; icon_cases.
  - icon_cases.
Qed.

(** X6. A label has a description of its own exactly when it is one of
    1 to 13; every other label reads "Unknown Classification".  A record
    without label, or with label 0, is shown as label 5 with the
    description of label 5. *)
Theorem classification_description_known (label : Z) (m : Match) :
  (getClassificationDescription label = "Unknown Classification" <->
   ~ (1 <= label <= 13)%Z) /\
  (qa_classification_label m = None \/ qa_classification_label m = Some 0%Z ->
   classification_cell m = ("Label 5", "No Consumable/Jigs/Tools Mentioned")).
Proof.
  split.
  - split.
    + intros H Hr.
      assert (Hcases : In label [1; 2; 3; 4; 5; 6; 7; 8; 9; 10; 11; 12; 13]%Z).
      { simpl. lia. }
      simpl in Hcases.
      repeat (destruct Hcases as [<-|Hcases]; [discriminate H|]).
      contradiction.
    + apply unknown_label_description.
  - unfold classification_cell. intros [-> | ->]; reflexivity.
Qed.

Lemma render_row_csvHeaders_one_line :
  has_char newline (render_row csvHeaders) = false.
Proof. reflexivity. Qed.

(** X10. Nothing is exported without a result object or without its
    match array; with one, whatever the records hold, the first line of
    the exported text is the header line. *)
Theorem export_first_line_is_header (results : option ResultSet) (ms : list Match) :
  (exportQAClassificationCSV results = None <->
   results = None \/ exists r, results = Some r /\ matches r = None) /\
  hd_error (lines (csvContent ms)) = Some (render_row csvHeaders).
Proof.
  split.
  - unfold exportQAClassificationCSV. destruct results as [r|].
    + destruct (matches r) eqn:E.
      * split; [discriminate|]. intros [H|[r' [H E']]]; [discriminate|].
        injection H as <-. congruence.
      * split; [|reflexivity]. intros _. right. exists r. auto.
    + split; [auto|reflexivity].
  - unfold lines, csvContent. simpl map.
    destruct (map render_row (csvRows ms)) as [|row rows].
    + simpl join. rewrite split_without by exact render_row_csvHeaders_one_line.
      reflexivity.
    + rewrite join_cons.
      change (str1 newline ++ join (str1 newline) (row :: rows))
        with (String newline (join (str1 newline) (row :: rows))).
      rewrite split_at_first by exact render_row_csvHeaders_one_line.
      reflexivity.
Qed.

(** X11. For a score between 0 and 1 the exported match confidence is a
    whole number of percent between 0 and 100.  It is [Math.round] of a
    product of doubles, so it lies within half a point of a hundred times
    the score up to the rounding of the doubles, which is less than
    2^-44. *)
Theorem exported_percent_close (m : Match) (index : nat) (q : Q) :
  confidence_score m = Some q ->
  (0 <= q)%Q -> (q <= 1)%Q ->
  exists p : Z,
    column col_match_confidence (csvRow index m) = num_to_string p ++ "%" /\
    (0 <= p <= 100)%Z /\
    (q * 100 - (1 # 2) - (1 # 17592186044416) <= inject_Z p)%Q /\
    (inject_Z p <= q * 100 + (1 # 2) + (1 # 17592186044416))%Q.
Proof.
  intros Hq H0 H1.
  exists (math_round (to_double (to_double q * 100)%Q)).
  split; [unfold column, col_match_confidence, csvRow, percent; simpl; now rewrite Hq|].
  pose proof (to_double_nonneg q H0) as D0.
  pose proof (to_double_le_int q 1 H0 H1 ltac:(discriminate)) as D1.
  change (inject_Z 1) with 1%Q in D1.
  destruct (to_double_close q 1 H0 H1 ltac:(discriminate)) as [C1 C2].
  change (inject_Z (2 ^ (51 - Z.log2 1))) with (2251799813685248 # 1)%Q in C1, C2.
  set (d := to_double q) in *.
  assert (X0 : (0 <= d * 100)%Q) by lra.
  assert (X1 : (d * 100 <= inject_Z 100)%Q) by (change (inject_Z 100) with 100%Q; lra).
  pose proof (to_double_nonneg _ X0) as V0.
  pose proof (to_double_le_int _ 100 X0 X1 ltac:(discriminate)) as V1.
  change (inject_Z 100) with 100%Q in V1.
  destruct (to_double_close _ 100 X0 X1 ltac:(discriminate)) as [E1 E2].
  change (inject_Z (2 ^ (51 - Z.log2 100))) with (35184372088832 # 1)%Q in E1, E2.
  set (v := to_double (d * 100)%Q) in *.
  destruct (math_round_close v) as [R1 R2].
  split; [|split; lra].
  unfold math_round. split.
  - change 0%Z with (Qfloor 0). apply Qfloor_resp_le. lra.
  - change 100%Z with (Qfloor (100 + (1 # 2))). apply Qfloor_resp_le. lra.
Qed.

Lemma exported_percent_close_witness :
  exists p : Z,
    column col_match_confidence (csvRow 0 bolt) = num_to_string p ++ "%" /\
    (0 <= p <= 100)%Z /\
    ((123 # 1000) * 100 - (1 # 2) - (1 # 17592186044416) <= inject_Z p)%Q /\
    (inject_Z p <= (123 # 1000) * 100 + (1 # 2) + (1 # 17592186044416))%Q.
Proof.
  apply (exported_percent_close bolt 0 (123 # 1000) eq_refl); discriminate.
Defined.

(** X12. The supplier-match cell of the export reads "No Match" when the
    score is missing or not above 0.  For a score that the engine reads
    as a double above 0 (every score of at least 2^-1074) it holds the
    supplier description as the template prints it: the text, the word
    "null" for a [null] one, and the word "undefined" when the record has
    none. *)
Theorem supplier_match_cell (m : Match) (index : nat) :
  (confidence_score m = None -> column 16 (csvRow index m) = "No Match") /\
  (forall q, confidence_score m = Some q -> (q <= 0)%Q ->
     column 16 (csvRow index m) = "No Match") /\
  (forall q, confidence_score m = Some q -> (to_double q <= 0)%Q ->
     column 16 (csvRow index m) = "No Match") /\
  (forall q, (pow2 (-1074) <= q)%Q -> (0 < to_double q)%Q) /\
  (forall q d, confidence_score m = Some q -> (0 < to_double q)%Q ->
     supplier_description m = PText d -> column 16 (csvRow index m) = d) /\
  (forall q, confidence_score m = Some q -> (0 < to_double q)%Q ->
     supplier_description m = PNull -> column 16 (csvRow index m) = "null") /\
  (forall q, confidence_score m = Some q -> (0 < to_double q)%Q ->
     supplier_description m = PUndefined ->
     column 16 (csvRow index m) = "undefined").
Proof.
  assert (No : forall q, confidence_score m = Some q -> (to_double q <= 0)%Q ->
                column 16 (csvRow index m) = "No Match").
  { intros q Hq Hle. unfold column, csvRow, score_positive. simpl. rewrite Hq. simpl.
    apply Qle_bool_iff in Hle. rewrite Hle. reflexivity. }
  assert (Yes : forall q, confidence_score m = Some q -> (0 < to_double q)%Q ->
                 column 16 (csvRow index m) = template_str (supplier_description m)).
  { intros q Hq Hlt. unfold column, csvRow, score_positive. simpl. rewrite Hq. simpl.
    destruct (Qle_bool (to_double q) 0) eqn:E; [|reflexivity].
    apply Qle_bool_iff in E. exfalso. apply (Qlt_not_le _ _ Hlt E). }
  split; [|split; [|split; [|split; [|split; [|split]]]]].
  - intros Hq. unfold column, csvRow, score_positive. simpl. rewrite Hq. reflexivity.
  - intros q Hq Hle. apply (No q Hq). now apply to_double_nonpos.
  - exact No.
  - exact to_double_positive.
  - intros q d Hq Hlt Hd. rewrite (Yes q Hq Hlt), Hd. reflexivity.
  - intros q Hq Hlt Hd. rewrite (Yes q Hq Hlt), Hd. reflexivity.
  - intros q Hq Hlt Hd. rewrite (Yes q Hq Hlt), Hd. reflexivity.
Qed.

(** The supplier-match cell of sample records: a text, [null], nothing,
    and a score of 0. *)
Lemma supplier_match_cell_samples :
  column 16 (csvRow 0 bolt) = "Hex bolt M6" /\
  column 16 (csvRow 0 (with_description PNull bolt)) = "null" /\
  column 16 (csvRow 0 (with_description PUndefined bolt)) = "undefined" /\
  column 16 (csvRow 0 (with_score (Some 0%Q) bolt)) = "No Match" /\
  column 16 (csvRow 0 (with_score None bolt)) = "No Match".
Proof. repeat split; vm_compute; reflexivity. Qed.

End ResultsPageMore.

(** ** Results page: sample result sets for the counts and the filter *)

Section ResultsPageSamples.
Import Js Results Samples.

Lemma counts_sum_tagged_witness :
  (greenCount [bolt; glue; tape] + amberCount [bolt; glue; tape]
   + redCount [bolt; glue; tape] = length [bolt; glue; tape])%nat.
Proof.
  apply (counts_sum_tagged [bolt; glue; tape]).
  repeat constructor.
Defined.

Lemma filteredMatches_other_witness :
  filteredMatches "yellow" [bolt; bolt_untagged] = [bolt; bolt_untagged].
Proof.
  apply (filteredMatches_other "yellow" [bolt; bolt_untagged]); discriminate.
Defined.

End ResultsPageSamples.

(** ** JavaScript objects: reading, setting, spreading *)

Section ObjectFacts.
Import JsObject.
Context {V : Type}.

Lemma get_set_eq (k : string) (v : V) (o : obj V) : get k (set k v o) = Some v.
Proof.
  induction o as [|[k' v'] o IH]; simpl.
  - now rewrite String.eqb_refl.
  - destruct (String.eqb k' k) eqn:E; simpl; rewrite E; [reflexivity|exact IH].
Qed.

Lemma get_set_ne (k k' : string) (v : V) (o : obj V) :
  k' <> k -> get k' (set k v o) = get k' o.
Proof.
  intros Hne. induction o as [|[k0 v0] o IH]; simpl.
  - destruct (String.eqb_spec k k'); [congruence|reflexivity].
  - destruct (String.eqb_spec k0 k) as [->|Hk]; simpl.
    + destruct (String.eqb_spec k k'); [congruence|reflexivity].
    + destruct (String.eqb k0 k'); [reflexivity|exact IH].
Qed.

Lemma get_None_keys (k : string) (o : obj V) : get k o = None <-> ~ In k (keys o).
Proof.
  induction o as [|[k' v'] o IH]; simpl; [tauto|].
  destruct (String.eqb_spec k' k) as [->|Hk].
  - split; [discriminate|]. intros H. exfalso. apply H. now left.
  - rewrite IH. split; [intros H [E|E]; [congruence|tauto]|tauto].
Qed.

Lemma get_Some_In (k : string) (v : V) (o : obj V) : get k o = Some v -> In (k, v) o.
Proof.
  induction o as [|[k' v'] o IH]; simpl; [discriminate|].
  destruct (String.eqb_spec k' k) as [->|Hk].
  - intros H. injection H as ->. now left.
  - intros H. right. now apply IH.
Qed.

Lemma In_get_well_formed (k : string) (v : V) (o : obj V) :
  well_formed o -> In (k, v) o -> get k o = Some v.
Proof.
  unfold well_formed. induction o as [|[k' v'] o IH]; simpl; [contradiction|].
  intros Hnd [H|H].
  - injection H as -> ->. now rewrite String.eqb_refl.
  - inversion Hnd as [|? ? Hnot Hnd']; subst.
    destruct (String.eqb_spec k' k) as [->|Hk].
    + exfalso. apply Hnot. change k with (fst (k, v)). now apply in_map.
    + now apply IH.
Qed.

(** Setting a property adds its key when it is new and no other. *)
Lemma keys_set (k : string) (v : V) (o : obj V) :
  keys (set k v o) =
    match get k o with
    | Some _ => keys o
    | None => (keys o ++ [k])%list
    end.
Proof.
  induction o as [|[k' v'] o IH]; simpl; [reflexivity|].
  destruct (String.eqb k' k) eqn:E; simpl; [reflexivity|].
  rewrite IH. now destruct (get k o).
Qed.

Lemma set_well_formed (k : string) (v : V) (o : obj V) :
  well_formed o -> well_formed (set k v o).
Proof.
  unfold well_formed. rewrite keys_set. intros H.
  destruct (get k o) eqn:E; [exact H|].
  apply get_None_keys in E.
  apply NoDup_rev in H. rewrite <- (rev_involutive (keys o ++ [k])%list).
  apply NoDup_rev. rewrite rev_app_distr. simpl.
  constructor; [|exact H]. now rewrite <- in_rev.
Qed.

Lemma spread_well_formed (target source : obj V) :
  well_formed target -> well_formed (spread target source).
Proof.
  unfold spread. revert target.
  induction source as [|[k v] source IH]; intros target H; simpl; [exact H|].
  apply IH. now apply set_well_formed.
Qed.

Lemma copy_well_formed_obj (o : obj V) : well_formed (copy o).
Proof. apply spread_well_formed. constructor. Qed.

Lemma spread_app (target s1 s2 : obj V) :
  spread target (s1 ++ s2)%list = spread (spread target s1) s2.
Proof. unfold spread. apply fold_left_app. Qed.

(** Spreading a source whose keys are all new and distinct appends it. *)
Lemma spread_fresh (target source : obj V) :
  NoDup (keys target ++ keys source)%list ->
  spread target source = (target ++ source)%list.
Proof.
  revert target. induction source as [|[k v] source IH]; intros target H.
  - simpl. now rewrite app_nil_r.
  - unfold spread. simpl. fold (spread (set k v target) source).
    assert (Hk : get k target = None).
    { apply get_None_keys. intros Hin.
      apply NoDup_remove_2 in H. apply H. apply in_or_app. now left. }
    assert (Hset : set k v target = (target ++ [(k, v)])%list).
    { clear -Hk. induction target as [|[k' v'] target IHt]; simpl in *; [reflexivity|].
      destruct (String.eqb k' k); [discriminate|]. now rewrite IHt. }
    rewrite Hset, IH.
    + now rewrite <- app_assoc.
    + unfold keys in *. rewrite map_app. simpl. rewrite <- app_assoc. exact H.
Qed.

(** Copying an object that lists no key twice gives the object. *)
Lemma copy_id (o : obj V) : well_formed o -> copy o = o.
Proof. intros H. unfold copy. now rewrite spread_fresh. Qed.

(** In a spread the source wins; what it does not carry is the target's. *)
Lemma get_spread (k : string) (target source : obj V) :
  well_formed source ->
  get k (spread target source) =
    match get k source with
    | Some v => Some v
    | None => get k target
    end.
Proof.
  unfold well_formed. revert target.
  induction source as [|[k' v'] source IH]; intros target H; [reflexivity|].
  unfold spread. simpl. fold (spread (set k' v' target) source).
  inversion H as [|? ? Hnot Hnd]; subst.
  rewrite (IH _ Hnd).
  destruct (String.eqb_spec k' k) as [->|Hk].
  - apply get_None_keys in Hnot. rewrite Hnot. apply get_set_eq.
  - destruct (get k source); [reflexivity|]. now apply get_set_ne.
Qed.

End ObjectFacts.

(** ** Results page: the reason chart and the folding sections *)

Section ReasonChartFacts.
Import Js Results JsObject ReasonChart Sections Samples.

Lemma sum_counts_set (k : string) (n : nat) (counts : obj nat) :
  (sum_counts (set k n counts) + count_of k counts = sum_counts counts + n)%nat.
Proof.
  unfold sum_counts, count_of, values.
  induction counts as [|[k' n'] counts IH]; simpl; [lia|].
  destruct (String.eqb k' k); simpl; lia.
Qed.

Lemma sum_counts_bump (r : string) (counts : obj nat) :
  sum_counts (bump r counts) = S (sum_counts counts).
Proof.
  unfold bump. pose proof (sum_counts_set r (count_of r counts + 1) counts) as H.
  unfold count_of in *. lia.
Qed.

Lemma count_of_bump (r k : string) (counts : obj nat) :
  count_of k (bump r counts) =
    (count_of k counts + if String.eqb (r) k then 1 else 0)%nat.
Proof.
  unfold bump, count_of. destruct (String.eqb_spec r k) as [->|Hne].
  - now rewrite get_set_eq.
  - rewrite get_set_ne by congruence. lia.
Qed.

Lemma keys_bump (r k : string) (counts : obj nat) :
  In k (keys (bump r counts)) <-> k = r \/ In k (keys counts).
Proof.
  unfold bump. rewrite keys_set.
  destruct (get r counts) eqn:E.
  - split; [tauto|]. intros [->|H]; [|exact H].
    destruct (in_dec string_dec r (keys counts)) as [Hin|Hnot]; [exact Hin|].
    apply get_None_keys in Hnot. congruence.
  - rewrite in_app_iff. simpl. split; intros H; intuition congruence.
Qed.

Lemma reasonCounts_from (matches : list Match) (counts : obj nat) (k : string) :
  let result := fold_left (fun c m => bump (reason_of m) c) matches counts in
  sum_counts result = (sum_counts counts + length matches)%nat /\
  count_of k result = (count_of k counts + reason_count k matches)%nat /\
  (In k (keys result) <->
   In k (keys counts) \/ exists m, In m matches /\ reason_of m = k) /\
  (well_formed counts -> well_formed result).
Proof.
  revert counts. induction matches as [|m matches IH]; intros counts; simpl.
  - split; [lia|]. split; [unfold reason_count; simpl; lia|]. split; [|tauto].
    split; [tauto|]. intros [H|[m [[] _]]]. exact H.
  - destruct (IH (bump (reason_of m) counts)) as (Hs & Hc & Hk & Hw).
    split; [rewrite Hs, sum_counts_bump; lia|].
    split.
    { rewrite Hc, count_of_bump. unfold reason_count. simpl.
      destruct (String.eqb (reason_of m) k); simpl; lia. }
    split.
    { split.
      - intros H. apply Hk in H as [H|[m' [Hin Hr]]].
        + apply keys_bump in H as [->|H]; [|now left].
          right. exists m. split; [now left|reflexivity].
        + right. exists m'. split; [now right|exact Hr].
      - intros [H|[m' [[<-|Hin] Hr]]]; apply Hk.
        + left. apply keys_bump. now right.
        + left. apply keys_bump. now left.
        + right. exists m'. split; assumption. }
    intros H. apply Hw. unfold bump. now apply set_well_formed.
Qed.

(** X7. For records whose reason is no member of [Object.prototype], the
    chart data has one entry per distinct reason (a missing reason counts
    as "No reason provided"), the value of an entry is the number of
    records with that reason and is at least 1, and the values add up to
    the number of records. *)
Theorem reason_chart_counts (matches : list Match) :
  Forall (fun m => ~ In (reason_of m) inherited_keys) matches ->
  let data := prepareReasonChartData matches in
  NoDup (map name data) /\
  list_sum (map value data) = length matches /\
  (forall slice, In slice data ->
     value slice = reason_count (name slice) matches /\ (1 <= value slice)%nat) /\
  (forall m, In m matches -> exists slice, In slice data /\ name slice = reason_of m).
Proof.
  intros _. unfold prepareReasonChartData.
  pose proof (fun k => reasonCounts_from matches [] k) as H. simpl in H.
  fold (reasonCounts matches) in H.
  assert (Hwf : well_formed (reasonCounts matches)).
  { destruct (H EmptyString) as (_ & _ & _ & Hw). apply Hw. constructor. }
  repeat split.
  - rewrite map_map. simpl. exact Hwf.
  - rewrite map_map. simpl. destruct (H EmptyString) as (Hs & _). exact Hs.
  - destruct slice as [r n]. simpl. apply in_map_iff in H0 as ([k c] & E & Hin).
    simpl in E. injection E as -> ->.
    destruct (H r) as (_ & Hc & _). unfold count_of in Hc.
    rewrite (In_get_well_formed r n _ Hwf Hin) in Hc. simpl in Hc. exact Hc.
  - destruct slice as [r n]. simpl. apply in_map_iff in H0 as ([k c] & E & Hin).
    simpl in E. injection E as -> ->.
    destruct (H r) as (_ & Hc & Hk & _). unfold count_of in Hc.
    rewrite (In_get_well_formed r n _ Hwf Hin) in Hc. simpl in Hc.
    assert (Hin' : In r (keys (reasonCounts matches))).
    { change r with (fst (r, n)). now apply in_map. }
    apply Hk in Hin' as [[]|[m [Hm Hr]]].
    rewrite Hc. unfold reason_count.
    assert (In m (filter (fun m0 => String.eqb (reason_of m0) r) matches)).
    { apply filter_In. split; [exact Hm|]. now apply String.eqb_eq. }
    destruct (filter (fun m0 => String.eqb (reason_of m0) r) matches);
      [contradiction|simpl; lia].
  - intros m Hm. destruct (H (reason_of m)) as (_ & _ & Hk & _).
    assert (Hin : In (reason_of m) (keys (reasonCounts matches))).
    { apply Hk. right. exists m. auto. }
    unfold keys in Hin. apply in_map_iff in Hin as ([k c] & E & Hin). simpl in E. subst k.
    exists {| name := reason_of m; value := c |}. split; [|reflexivity].
    apply in_map_iff. exists (reason_of m, c). auto.
Qed.

Lemma reason_chart_counts_witness :
  list_sum (map value (prepareReasonChartData [bolt; glue; pipe; bolt_untagged]))
  = 4%nat.
Proof.
  apply (reason_chart_counts [bolt; glue; pipe; bolt_untagged]).
  repeat constructor; simpl; intuition discriminate.
Defined.

(** X8. Every chart entry gets one of the ten colours, whatever its
    index, and entries ten places apart get the same colour. *)
Theorem reason_color_cycles (index : nat) :
  (exists c, getReasonColor index = Some c /\ In c colors) /\
  getReasonColor (index + 10) = getReasonColor index.
Proof.
  unfold getReasonColor. change (length colors) with 10%nat. split.
  - assert (Hlt : (index mod 10 < length colors)%nat).
    { change (length colors) with 10%nat. apply Nat.mod_upper_bound. discriminate. }
    destruct (nth_error colors (index mod 10)) as [c|] eqn:E.
    + exists c. split; [reflexivity|]. eapply nth_error_In. exact E.
    + apply nth_error_None in E. lia.
  - f_equal. replace (index + 10)%nat with (index + 1 * 10)%nat by lia.
    apply Nat.Div0.mod_add.
Qed.

(** X9. Folding or unfolding one of the four sections changes that
    section only, and doing it twice gives the sections back as they
    were. *)
Theorem toggleSection_twice (section : string) (prev : obj bool) :
  well_formed prev ->
  In section (keys prev) ->
  toggleSection section (toggleSection section prev) = prev /\
  (forall other, other <> section ->
     get other (toggleSection section prev) = get other prev) /\
  (forall open, get section prev = Some open ->
     get section (toggleSection section prev) = Some (negb open)).
Proof.
  intros Hwf Hin. unfold toggleSection. rewrite (copy_id prev Hwf).
  assert (Hwf' : forall b, well_formed (set section b prev)).
  { intros b. now apply set_well_formed. }
  rewrite (copy_id _ (Hwf' _)). rewrite get_set_eq.
  split; [|split].
  - destruct (get section prev) as [open|] eqn:E.
    + rewrite negb_involutive. clear -E.
      induction prev as [|[k b] prev IH]; simpl in *; [discriminate|].
      destruct (String.eqb k section) eqn:Ek; simpl; rewrite Ek.
      * apply String.eqb_eq in Ek. subst k. now injection E as ->.
      * now rewrite IH.
    + apply get_None_keys in E. contradiction.
  - intros other Hne. now apply get_set_ne.
  - intros open ->. reflexivity.
Qed.

Lemma toggleSection_twice_witness :
  toggleSection "matches" (toggleSection "matches" initialSections) = initialSections.
Proof.
  apply (toggleSection_twice "matches" initialSections).
  - repeat constructor; simpl; intuition discriminate.
  - simpl. tauto.
Defined.

End ReasonChartFacts.

(** ** Upload page: further properties of the two checks and the upload *)

Section UploadPageMore.
Import Js Upload.

Lemma lower_char_idempotent (a : ascii) : lower_char (lower_char a) = lower_char a.
Proof. destruct a as [[] [] [] [] [] [] [] []]; reflexivity. Qed.

Lemma lower_char_dot (a : ascii) : Ascii.eqb (lower_char a) dot = Ascii.eqb a dot.
Proof. destruct a as [[] [] [] [] [] [] [] []]; reflexivity. Qed.

Lemma toLowerCase_idempotent (s : string) : toLowerCase (toLowerCase s) = toLowerCase s.
Proof.
  induction s as [|a s IH]; simpl; [reflexivity|].
  now rewrite lower_char_idempotent, IH.
Qed.

(** Lowering a name lowers each of its dot-separated pieces. *)
Lemma split_toLowerCase (s : string) :
  split dot (toLowerCase s) = map toLowerCase (split dot s).
Proof.
  induction s as [|a s IH]; simpl; [reflexivity|].
  rewrite lower_char_dot. destruct (Ascii.eqb a dot) eqn:E.
  - simpl. now rewrite IH.
  - rewrite IH. pose proof (split_not_nil dot s) as Hne.
    destruct (split dot s) as [|p rest]; [contradiction|reflexivity].
Qed.

Lemma last_map_toLowerCase (l : list string) :
  l <> [] ->
  last (map toLowerCase l) EmptyString = toLowerCase (last l EmptyString).
Proof.
  induction l as [|x l IH]; [contradiction|]. intros _.
  destruct l as [|y l]; [reflexivity|].
  change (last (toLowerCase x :: map toLowerCase (y :: l)) EmptyString)
    with (last (map toLowerCase (y :: l)) EmptyString).
  rewrite last_cons_cons. apply IH. discriminate.
Qed.

(** X14. The two checks ignore the case of the letters of the name: a
    name and the same name in lower case have the same extension, so one
    is taken exactly when the other is. *)
Theorem extension_check_ignores_case (file : File) :
  let lowered := {| name := toLowerCase (name file); size := size file |} in
  fileExt lowered = fileExt file /\
  includes qaDocTypes (fileExt lowered) = includes qaDocTypes (fileExt file) /\
  includes bomTypes (fileExt lowered) = includes bomTypes (fileExt file).
Proof.
  assert (E : fileExt {| name := toLowerCase (name file); size := size file |}
              = fileExt file).
  { unfold fileExt. simpl name. rewrite split_toLowerCase.
    rewrite last_map_toLowerCase by apply split_not_nil.
    now rewrite toLowerCase_idempotent. }
  cbv zeta. rewrite !E. repeat split.
Qed.

(** X13. For a file whose name ends with a dot and an extension without
    dot: the QA-document check takes the file exactly when the lowered
    extension is one of .pdf, .docx, .doc, .txt, and the item-list check
    exactly when it is one of .xlsx, .xls, .csv; a file that is not taken
    leaves both selections as they were and adds an error toast. *)
Theorem file_checked_by_extension (file : File) (st : Page) (before ext : string) :
  name file = before ++ String dot ext ->
  has_char dot ext = false ->
  (In (String dot (toLowerCase ext)) qaDocTypes ->
   qaDocument (handleQaDocumentSelect file st) = Some file) /\
  (~ In (String dot (toLowerCase ext)) qaDocTypes ->
   qaDocument (handleQaDocumentSelect file st) = qaDocument st /\
   supplierBom (handleQaDocumentSelect file st) = supplierBom st /\
   exists msg, toasts (handleQaDocumentSelect file st) = ToastError msg :: toasts st) /\
  (In (String dot (toLowerCase ext)) bomTypes ->
   supplierBom (handleSupplierBomSelect file st) = Some file) /\
  (~ In (String dot (toLowerCase ext)) bomTypes ->
   qaDocument (handleSupplierBomSelect file st) = qaDocument st /\
   supplierBom (handleSupplierBomSelect file st) = supplierBom st /\
   exists msg, toasts (handleSupplierBomSelect file st) = ToastError msg :: toasts st).
Proof.
  intros Hname Hext.
  assert (E : fileExt file = String dot (toLowerCase ext)).
  { unfold fileExt. rewrite Hname.
    rewrite split_at_first_last by exact Hext. reflexivity. }
  rewrite <- E. repeat split.
  - intros H. now apply handleQaDocumentSelect_accepts.
  - destruct (handleQaDocumentSelect_rejects file st H) as (msg & _ & Hq & _). exact Hq.
  - destruct (handleQaDocumentSelect_rejects file st H) as (msg & _ & _ & Hb). exact Hb.
  - destruct (handleQaDocumentSelect_rejects file st H) as (msg & Hr & _).
    exists msg. now rewrite Hr.
  - intros H. now apply handleSupplierBomSelect_accepts.
  - destruct (handleSupplierBomSelect_rejects file st H) as (msg & _ & Hq & _). exact Hq.
  - destruct (handleSupplierBomSelect_rejects file st H) as (msg & _ & _ & Hb). exact Hb.
  - destruct (handleSupplierBomSelect_rejects file st H) as (msg & Hr & _).
    exists msg. now rewrite Hr.
Qed.

Lemma file_checked_by_extension_witness :
  qaDocument (handleQaDocumentSelect {| name := "wi.v2.PDF"; size := 10 |} initial)
  = Some {| name := "wi.v2.PDF"; size := 10 |}.
Proof.
  apply (file_checked_by_extension {| name := "wi.v2.PDF"; size := 10 |} initial "wi.v2" "PDF");
    try reflexivity.
  simpl. tauto.
Defined.

(** X15. Choosing a QA document never touches the chosen item list nor
    the uploading flag, and choosing an item list never touches the chosen
    QA document; either adds exactly one toast, and a file that is not
    taken leaves the earlier choice in place. *)
Theorem selections_are_independent (file : File) (st : Page) :
  supplierBom (handleQaDocumentSelect file st) = supplierBom st /\
  uploading (handleQaDocumentSelect file st) = uploading st /\
  (exists t, toasts (handleQaDocumentSelect file st) = t :: toasts st) /\
  (qaDocument (handleQaDocumentSelect file st) = Some file \/
   qaDocument (handleQaDocumentSelect file st) = qaDocument st) /\
  qaDocument (handleSupplierBomSelect file st) = qaDocument st /\
  uploading (handleSupplierBomSelect file st) = uploading st /\
  (exists t, toasts (handleSupplierBomSelect file st) = t :: toasts st) /\
  (supplierBom (handleSupplierBomSelect file st) = Some file \/
   supplierBom (handleSupplierBomSelect file st) = supplierBom st).
Proof.
  unfold handleQaDocumentSelect, handleSupplierBomSelect.
  destruct (includes qaDocTypes (fileExt file)),
    (includes bomTypes (fileExt file)); simpl;
    repeat split; eauto.
Qed.

(** X16. Unless both files are chosen, starting the processing sends
    nothing, whatever the backend would answer: the page only gets the
    toast that asks for both documents. *)
Theorem start_needs_both_files (upload : File -> File -> UploadResponse) (st : Page) :
  qaDocument st = None \/ supplierBom st = None ->
  handleStartProcessing upload st =
    (toast (ToastError "Please select both documents") st, None) /\
  qaDocument (fst (handleStartProcessing upload st)) = qaDocument st /\
  supplierBom (fst (handleStartProcessing upload st)) = supplierBom st.
Proof.
  intros H. rewrite (no_upload_without_both upload st H). repeat split.
Qed.

Lemma start_needs_both_files_witness :
  handleStartProcessing (fun _ _ => Uploaded "wf-9")
    (handleQaDocumentSelect {| name := "wi.pdf"; size := 10 |} initial)
  = (toast (ToastError "Please select both documents")
       (handleQaDocumentSelect {| name := "wi.pdf"; size := 10 |} initial), None).
Proof.
  apply (start_needs_both_files (fun _ _ => Uploaded "wf-9")
           (handleQaDocumentSelect {| name := "wi.pdf"; size := 10 |} initial)).
  right. reflexivity.
Defined.

(** X17. Once a QA document and an item list passed their checks, in
    either order, starting the processing uploads exactly these two files;
    the page goes to the workflow the backend answers with, or, when the
    upload fails, stays with an error toast that shows the detail of the
    failure ("Upload failed" without one).  Either way the two files stay
    chosen and the uploading flag is off again. *)
Theorem upload_after_selection
  (upload : File -> File -> UploadResponse) (qa bom : File) (st : Page) :
  In (fileExt qa) qaDocTypes ->
  In (fileExt bom) bomTypes ->
  let chosen := handleSupplierBomSelect bom (handleQaDocumentSelect qa st) in
  let chosen' := handleQaDocumentSelect qa (handleSupplierBomSelect bom st) in
  let result := handleStartProcessing upload chosen in
  snd (handleStartProcessing upload chosen') = snd result /\
  qaDocument (fst result) = Some qa /\
  supplierBom (fst result) = Some bom /\
  uploading (fst result) = false /\
  (forall id, upload qa bom = Uploaded id ->
     snd result = Some id /\
     exists msg, toasts (fst result) = ToastSuccess msg :: toasts chosen) /\
  (forall detail, upload qa bom = UploadFailed detail ->
     snd result = None /\
     toasts (fst result)
     = ToastError (or_str detail "Upload failed") :: toasts chosen).
Proof.
  intros Hqa Hbom. simpl.
  unfold handleQaDocumentSelect, handleSupplierBomSelect.
  apply includes_In in Hqa, Hbom. rewrite Hqa, Hbom. simpl.
  unfold handleStartProcessing. simpl.
  destruct (upload qa bom) as [id|detail]; simpl; repeat split;
    intros; try discriminate;
    try (match goal with H : Uploaded _ = Uploaded _ |- _ => injection H as <- end);
    try (match goal with H : UploadFailed _ = UploadFailed _ |- _ => injection H as <- end);
    eauto.
Qed.

Lemma upload_after_selection_witness :
  snd (handleStartProcessing (fun _ _ => Uploaded "wf-9")
         (handleSupplierBomSelect {| name := "items.XLSX"; size := 20 |}
            (handleQaDocumentSelect {| name := "wi.pdf"; size := 10 |} initial)))
  = Some "wf-9".
Proof.
  apply (upload_after_selection (fun _ _ => Uploaded "wf-9")
           {| name := "wi.pdf"; size := 10 |}
           {| name := "items.XLSX"; size := 20 |} initial);
    try (simpl; tauto); reflexivity.
Defined.

End UploadPageMore.

(** ** Processing page: the shapes of the stage view *)

Section ProcessingPageMore.
Import Js Workflows Processing.

(** X18. The four stages are shown in one of seven ways: all failed (a
    failed workflow), all completed (a finished one), all idle, or
    completed up to a stage that is processing and idle after it.  So at
    most one stage is shown processing, none is shown completed after an
    idle or processing one, and "error" is shown for a failed workflow
    only. *)
Theorem stage_view_shapes (w : Workflow) :
  let view := map (getStageStatus (Some w)) stage_keys in
  (status w = "error" -> view = ["error"; "error"; "error"; "error"]) /\
  (status w = "completed" ->
   view = ["completed"; "completed"; "completed"; "completed"]) /\
  (status w <> "error" -> status w <> "completed" ->
   In view [ ["processing"; "idle"; "idle"; "idle"];
             ["completed"; "processing"; "idle"; "idle"];
             ["completed"; "completed"; "processing"; "idle"];
             ["completed"; "completed"; "completed"; "processing"];
             ["idle"; "idle"; "idle"; "idle"] ]).
Proof.
  simpl. unfold getStageStatus. split; [intros ->; reflexivity|].
  split; [intros ->; reflexivity|].
  intros Herr Hdone. apply String.eqb_neq in Herr, Hdone. rewrite Herr, Hdone.
  destruct (current_stage w) as [c|]; [|simpl; tauto].
  unfold findIndex, stages, str_is. cbn [findIndex_from key].
  destruct (String.eqb_spec c "translation") as [->|H1]; [simpl; tauto|].
  destruct (String.eqb_spec c "extraction") as [->|H2]; [simpl; tauto|].
  destruct (String.eqb_spec c "supplier_bom") as [->|H3]; [simpl; tauto|].
  destruct (String.eqb_spec c "comparison") as [->|H4]; [simpl; tauto|].
  simpl. tauto.
Qed.

(** X19. A workflow that is neither failed nor finished and whose
    current stage is missing or is none of the four keys shows every
    stage as idle. *)
Theorem unlisted_stage_all_idle (w : Workflow) :
  status w <> "error" -> status w <> "completed" ->
  (forall c, current_stage w = Some c -> ~ In c stage_keys) ->
  map (getStageStatus (Some w)) stage_keys = ["idle"; "idle"; "idle"; "idle"].
Proof.
  intros Herr Hdone Hc. simpl. unfold getStageStatus.
  apply String.eqb_neq in Herr, Hdone. rewrite Herr, Hdone.
  destruct (current_stage w) as [c|]; [|reflexivity].
  specialize (Hc c eq_refl). simpl in Hc.
  unfold findIndex, stages, str_is. cbn [findIndex_from key].
  destruct (String.eqb_spec c "translation") as [->|H1]; [tauto|].
  destruct (String.eqb_spec c "extraction") as [->|H2]; [tauto|].
  destruct (String.eqb_spec c "supplier_bom") as [->|H3]; [tauto|].
  destruct (String.eqb_spec c "comparison") as [->|H4]; [tauto|].
  reflexivity.
Qed.

Lemma unlisted_stage_all_idle_witness :
  map (getStageStatus
         (Some {| workflow_id := "wf-4"; status := "initialized"; progress := None;
                  current_stage := Some "upload"; message := None |})) stage_keys
  = ["idle"; "idle"; "idle"; "idle"].
Proof.
  apply unlisted_stage_all_idle; try discriminate.
  intros c H. injection H as <-. simpl. intuition discriminate.
Defined.

End ProcessingPageMore.

(** ** Dashboard: the cards and the recent list *)

Section DashboardMore.
Import Js Workflows Dashboard DashboardCards.

Lemma math_round_range (x : Q) :
  (0 <= x)%Q -> (x <= 100)%Q -> (0 <= math_round x <= 100)%Z.
Proof.
  intros H0 H1. unfold math_round. split.
  - change 0%Z with (Qfloor 0). apply Qfloor_resp_le. lra.
  - change 100%Z with (Qfloor (100 + (1 # 2))). apply Qfloor_resp_le. lra.
Qed.

Lemma status_counts (ws : list Workflow) :
  (completedWorkflows ws + processingWorkflows ws <= totalWorkflows ws)%nat.
Proof.
  unfold completedWorkflows, processingWorkflows, totalWorkflows.
  induction ws as [|w ws IH]; simpl; [lia|].
  destruct (String.eqb_spec (status w) "completed") as [E|E]; simpl.
  - rewrite E. simpl. lia.
  - destruct (String.eqb (status w) "processing"); simpl; lia.
Qed.

(** X20. No workflow is counted both as completed and as active, so the
    two cards never add up to more than the total; the success rate of
    the Completed card is a whole percentage between 0 and 100; and with
    no workflow the card shows no rate at all, without dividing. *)
Theorem success_rate_bounds (w : Workflow) (ws : list Workflow) :
  (completedWorkflows (w :: ws) + processingWorkflows (w :: ws)
   <= totalWorkflows (w :: ws))%nat /\
  (0 <= successRate (w :: ws) <= 100)%Z /\
  completedTrend (w :: ws) = num_to_string (successRate (w :: ws)) ++ "% success rate" /\
  completedTrend [] = EmptyString.
Proof.
  split; [apply status_counts|]. split; [|split; reflexivity].
  pose proof (status_counts (w :: ws)) as Hle.
  unfold successRate.
  set (r := (inject_Z (Z.of_nat (completedWorkflows (w :: ws)))
             / inject_Z (Z.of_nat (totalWorkflows (w :: ws))))%Q).
  assert (R0 : (0 <= r)%Q).
  { apply Qle_shift_div_l.
    + unfold totalWorkflows. simpl length. unfold Qlt. simpl. lia.
    + rewrite Qmult_0_l. unfold Qle. simpl. lia. }
  assert (R1 : (r <= inject_Z 1)%Q).
  { apply Qle_shift_div_r.
    - unfold totalWorkflows. simpl length. unfold Qlt. simpl. lia.
    - change (inject_Z 1) with 1%Q. rewrite Qmult_1_l. rewrite <- Zle_Qle. lia. }
  pose proof (to_double_nonneg r R0) as D0.
  pose proof (to_double_le_int r 1 R0 R1 ltac:(discriminate)) as D1.
  change (inject_Z 1) with 1%Q in D1.
  set (d := to_double r) in *.
  assert (X0 : (0 <= d * 100)%Q) by lra.
  assert (X1 : (d * 100 <= inject_Z 100)%Q) by (change (inject_Z 100) with 100%Q; lra).
  pose proof (to_double_le_int _ 100 X0 X1 ltac:(discriminate)) as V1.
  change (inject_Z 100) with 100%Q in V1.
  apply math_round_range; [now apply to_double_nonneg|exact V1].
Qed.

(** The rate is rounded from the double product: 23 completed workflows
    of 40 give 57%, the double of 0.575 times 100 being just below 57.5. *)
Lemma success_rate_rounds_double_product :
  successRate
    (repeat {| workflow_id := "wf"; status := "completed"; progress := None;
               current_stage := None; message := None |} 23
     ++ repeat {| workflow_id := "wf"; status := "processing"; progress := None;
                  current_stage := None; message := None |} 17) = 57%Z.
Proof. vm_compute. reflexivity. Qed.

Lemma total_progress_range (ws : list Workflow) :
  Forall (fun w => forall p, progress w = Some p -> (0 <= p)%Q /\ (p <= 100)%Q) ws ->
  (0 <= total_progress ws)%Q /\
  (total_progress ws <= 100 * inject_Z (Z.of_nat (length ws)))%Q.
Proof.
  induction 1 as [|w ws Hw _ [IH0 IH1]].
  - simpl. split; [apply Qle_refl|]. unfold Qle. simpl. lia.
  - assert (Hp : (0 <= or_zero (progress w))%Q /\ (or_zero (progress w) <= 100)%Q).
    { destruct (progress w) as [p|]; simpl; [now apply Hw|split; discriminate]. }
    destruct Hp as [Hp0 Hp1].
    change (total_progress (w :: ws)) with (or_zero (progress w) + total_progress ws)%Q.
    assert (E : (inject_Z (Z.of_nat (length (w :: ws)))
                 == 1 + inject_Z (Z.of_nat (length ws)))%Q).
    { simpl length. rewrite Nat2Z.inj_succ, <- Z.add_1_l, inject_Z_plus. reflexivity. }
    rewrite E. split; lra.
Qed.

(** X21. When the progress of every workflow, where it has one, lies
    between 0 and 100, so does the average, and the Average Progress card
    shows a whole percentage between 0 and 100. *)
Theorem average_progress_in_range (ws : list Workflow) :
  Forall (fun w => forall p, progress w = Some p -> (0 <= p)%Q /\ (p <= 100)%Q) ws ->
  (0 <= averageProgress ws)%Q /\ (averageProgress ws <= 100)%Q /\
  (0 <= math_round (averageProgress ws) <= 100)%Z /\
  averageProgressCard ws = num_to_string (math_round (averageProgress ws)) ++ "%".
Proof.
  intros H.
  assert (Hr : (0 <= averageProgress ws)%Q /\ (averageProgress ws <= 100)%Q).
  { destruct ws as [|w ws]; [split; discriminate|].
    destruct (total_progress_range (w :: ws) H) as [H0 H1].
    unfold averageProgress. change (0 <? length (w :: ws))%nat with true. cbv iota.
    rewrite progress_sum_total.
    assert (Hn : (0 < inject_Z (Z.of_nat (length (w :: ws))))%Q).
    { unfold Qlt. simpl. lia. }
    split.
    - apply Qle_shift_div_l; [exact Hn|]. lra.
    - apply Qle_shift_div_r; [exact Hn|]. exact H1. }
  destruct Hr as [H0 H1]. repeat split; try assumption;
    apply math_round_range; assumption.
Qed.

Lemma average_progress_in_range_witness :
  (0 <= averageProgress [Processing.finished; Processing.failed])%Q /\
  (averageProgress [Processing.finished; Processing.failed] <= 100)%Q.
Proof.
  destruct (average_progress_in_range [Processing.finished; Processing.failed])
    as (H0 & H1 & _).
  - repeat constructor; simpl in *; injection H as <-; discriminate.
  - split; assumption.
Defined.

Lemma insert_by_date_perm (x : Listed) (l : list Listed) :
  Permutation (insert_by_date x l) (x :: l).
Proof.
  induction l as [|y l IH]; simpl; [reflexivity|].
  destruct (created_at x <? created_at y)%Z; [|reflexivity].
  rewrite IH. apply perm_swap.
Qed.

Lemma sort_by_date_perm (l : list Listed) : Permutation (sort_by_date l) l.
Proof.
  induction l as [|x l IH]; simpl; [reflexivity|].
  rewrite insert_by_date_perm. now constructor.
Qed.

Lemma insert_by_date_sorted (x : Listed) (l : list Listed) :
  StronglySorted not_older l -> StronglySorted not_older (insert_by_date x l).
Proof.
  induction 1 as [|y l Hs IH Hy]; simpl; [repeat constructor|].
  destruct (Z.ltb_spec (created_at x) (created_at y)) as [Hlt|Hge].
  - constructor; [exact IH|].
    apply Forall_forall. intros z Hz.
    apply (Permutation_in _ (insert_by_date_perm x l)) in Hz as [<-|Hz].
    + unfold not_older. lia.
    + rewrite Forall_forall in Hy. now apply Hy.
  - constructor; [constructor; assumption|].
    constructor; [exact Hge|].
    apply Forall_forall. intros z Hz. rewrite Forall_forall in Hy.
    specialize (Hy z Hz). unfold not_older in *. lia.
Qed.

Lemma sort_by_date_sorted (l : list Listed) : StronglySorted not_older (sort_by_date l).
Proof.
  induction l as [|x l IH]; simpl; [constructor|]. now apply insert_by_date_sorted.
Qed.

Lemma strongly_sorted_split (l1 l2 : list Listed) :
  StronglySorted not_older (l1 ++ l2)%list ->
  StronglySorted not_older l1 /\
  forall x y, In x l1 -> In y l2 -> not_older x y.
Proof.
  induction l1 as [|a l1 IH]; simpl; intros H.
  - split; [constructor|contradiction].
  - inversion H as [|? ? Hs Ha]; subst. destruct (IH Hs) as [Hs1 Hx].
    rewrite Forall_forall in Ha. split.
    + constructor; [exact Hs1|]. apply Forall_forall. intros z Hz.
      apply Ha. apply in_or_app. now left.
    + intros x y [<-|Hin] Hy; [|now apply Hx].
      apply Ha. apply in_or_app. now right.
Qed.

(** X22. The recent list shows five workflows, or all when there are
    fewer, newest first; together with those it leaves out they are the
    workflows that were loaded, and none it leaves out is newer than one
    it shows. *)
Theorem recent_workflows_newest (workflows : list Listed) :
  length (recentWorkflows (Some workflows)) = Nat.min 5 (length workflows) /\
  StronglySorted not_older (recentWorkflows (Some workflows)) /\
  exists rest,
    Permutation (recentWorkflows (Some workflows) ++ rest)%list workflows /\
    forall shown omitted,
      In shown (recentWorkflows (Some workflows)) -> In omitted rest ->
      (created_at omitted <= created_at shown)%Z.
Proof.
  unfold recentWorkflows.
  pose proof (sort_by_date_sorted workflows) as Hs.
  pose proof (sort_by_date_perm workflows) as Hp.
  rewrite <- (firstn_skipn 5 (sort_by_date workflows)) in Hs.
  destruct (strongly_sorted_split _ _ Hs) as [Hs1 Hx].
  split; [|split].
  - rewrite length_firstn. now rewrite (Permutation_length Hp).
  - exact Hs1.
  - exists (skipn 5 (sort_by_date workflows)). split.
    + now rewrite firstn_skipn.
    + intros shown omitted H1 H2. exact (Hx shown omitted H1 H2).
Qed.

(** With nothing loaded the recent list is empty. *)
Lemma recent_workflows_none : recentWorkflows None = [].
Proof. reflexivity. Qed.

End DashboardMore.

(** ** The workflow store and the message handler *)

Section StoreFacts.
Import JsObject WorkflowStore ProcessingMessages.

Context {Stats : Type}.
Variable number_to_string : Q -> string.

Lemma find_append {A : Type} (p : A -> bool) (l1 l2 : list A) :
  find p (l1 ++ l2)%list =
    match find p l1 with
    | Some x => Some x
    | None => find p l2
    end.
Proof.
  induction l1 as [|x l1 IH]; simpl; [reflexivity|].
  destruct (p x); [reflexivity|exact IH].
Qed.

Lemma workflowsMap_from (payload : list (obj Val)) (m : obj (obj Val)) (id : string) :
  let result := fold_left (fun m w => set (id_of number_to_string w) w m) payload m in
  (well_formed m -> well_formed result) /\
  get id result =
    match last_with_id number_to_string id payload with
    | Some w => Some w
    | None => get id m
    end /\
  (forall k, In k (keys result) ->
     In k (keys m) \/ exists w, In w payload /\ id_of number_to_string w = k).
Proof.
  revert m. induction payload as [|w payload IH]; intros m; simpl.
  - repeat split; auto.
  - destruct (IH (set (id_of number_to_string w) w m)) as (Hw & Hg & Hk). split; [|split].
    + intros H. apply Hw. now apply set_well_formed.
    + rewrite Hg. unfold last_with_id. simpl. rewrite find_append.
      destruct (find (fun w0 => String.eqb (id_of number_to_string w0) id) (rev payload)); [reflexivity|].
      simpl. destruct (String.eqb_spec (id_of number_to_string w) id) as [<-|Hne].
      * apply get_set_eq.
      * now apply get_set_ne.
    + intros k Hin. apply Hk in Hin as [Hin|[w' [Hin E]]].
      * rewrite keys_set in Hin. destruct (get (id_of number_to_string w) m).
        -- now left.
        -- apply in_app_iff in Hin as [Hin|[<-|[]]]; [now left|].
           right. exists w. auto.
      * right. exists w'. auto.
Qed.

Lemma set_length {V : Type} (k : string) (v : V) (o : obj V) :
  (length (set k v o) <= S (length o))%nat.
Proof.
  induction o as [|[k' v'] o IH]; simpl; [lia|].
  destruct (String.eqb k' k); simpl; lia.
Qed.

Lemma workflowsMap_length (payload : list (obj Val)) (m : obj (obj Val)) :
  (length (fold_left (fun m w => set (id_of number_to_string w) w m) payload m)
   <= length m + length payload)%nat.
Proof.
  revert m. induction payload as [|w payload IH]; intros m; simpl; [lia|].
  specialize (IH (set (id_of number_to_string w) w m)).
  pose proof (set_length (id_of number_to_string w) w m). lia.
Qed.

(** What [UPDATE_WORKFLOW] does to a store that lists no workflow and no
    property twice. *)
Lemma reducer_update (state : State Stats) (payload : obj Val) :
  well_formed (workflows state) ->
  well_formed (stored (id_of number_to_string payload) (workflows state)) ->
  well_formed payload ->
  workflows (workflowReducer number_to_string state (UPDATE_WORKFLOW payload))
  = set (id_of number_to_string payload)
        (spread (stored (id_of number_to_string payload) (workflows state)) payload)
        (workflows state).
Proof.
  intros Hws Hold Hp. simpl. now rewrite (copy_id _ Hws), (copy_id _ Hold).
Qed.

(** X25. After an update of a workflow the store holds, under the
    identifier of the update, the stored workflow overwritten with the
    properties the update carries: a property the update does not carry
    keeps its stored value.  Every other workflow, and the rest of the
    state, is as before. *)
Theorem update_workflow_merges (state : State Stats) (payload : obj Val) :
  well_formed (workflows state) ->
  well_formed (stored (id_of number_to_string payload) (workflows state)) ->
  well_formed payload ->
  let state' := workflowReducer number_to_string state (UPDATE_WORKFLOW payload) in
  exists merged,
    get (id_of number_to_string payload) (workflows state') = Some merged /\
    (forall k, get k merged =
       match get k payload with
       | Some v => Some v
       | None => get k (stored (id_of number_to_string payload) (workflows state))
       end) /\
    (forall id, id <> id_of number_to_string payload ->
       get id (workflows state') = get id (workflows state)) /\
    well_formed (workflows state') /\
    currentWorkflowId state' = currentWorkflowId state /\
    agentStats state' = agentStats state /\
    loading state' = loading state /\
    error state' = error state.
Proof.
  intros Hws Hold Hp. cbv zeta. rewrite (reducer_update state payload Hws Hold Hp).
  eexists. split; [apply get_set_eq|].
  split; [intros k; now apply get_spread|].
  split; [intros id Hne; now apply get_set_ne|].
  split; [now apply set_well_formed|]. repeat split.
Qed.

(** The reducer keeps the store free of repeated identifiers. *)
Lemma reducer_well_formed (state : State Stats) (action : Action Stats) :
  well_formed (workflows state) ->
  well_formed (workflows (workflowReducer number_to_string state action)).
Proof.
  intros H. destruct action; simpl; try exact H.
  - apply set_well_formed, copy_well_formed_obj.
  - unfold workflowsMap.
    destruct (workflowsMap_from payload [] EmptyString) as (Hw & _).
    apply Hw. constructor.
Qed.

(** X26. Whatever was dispatched since the provider was mounted, the
    store lists every workflow identifier once, so the dashboard's array
    of workflows has one entry for each identifier. *)
Theorem store_lists_each_id_once (actions : list (Action Stats)) :
  NoDup (keys (workflows (dispatch_all number_to_string (initialState Stats) actions))) /\
  length (values (workflows (dispatch_all number_to_string (initialState Stats) actions)))
  = length (keys (workflows (dispatch_all number_to_string (initialState Stats) actions))).
Proof.
  split.
  - unfold dispatch_all.
    assert (H : well_formed (workflows (initialState Stats))) by constructor.
    revert H. generalize (initialState Stats).
    induction actions as [|a actions IH]; intros st H; simpl; [exact H|].
    apply IH. now apply reducer_well_formed.
  - unfold values, keys. now rewrite !length_map.
Qed.

(** X27. Loading the list of workflows replaces the store: none of the
    workflows held before survives, every loaded workflow is found under
    its identifier, the last one winning when an identifier comes twice,
    and the store holds at most as many workflows as were loaded.  (An
    identifier [__proto__] would not be stored as a workflow.) *)
Theorem set_workflows_replaces
  (state : State Stats) (payload : list (obj Val)) (id : string) :
  Forall (fun w => id_of number_to_string w <> "__proto__") payload ->
  let state' := workflowReducer number_to_string state (SET_WORKFLOWS payload) in
  get id (workflows state') = last_with_id number_to_string id payload /\
  (forall k, In k (keys (workflows state')) ->
     exists w, In w payload /\ id_of number_to_string w = k) /\
  (length (values (workflows state')) <= length payload)%nat /\
  well_formed (workflows state').
Proof.
  intros _. simpl. unfold workflowsMap.
  destruct (workflowsMap_from payload [] id) as (Hw & Hg & Hk).
  split; [|split; [|split]].
  - rewrite Hg. now destruct (last_with_id number_to_string id payload).
  - intros k Hin. apply Hk in Hin as [[]|H]. exact H.
  - unfold values. rewrite length_map.
    pose proof (workflowsMap_length payload []) as H. simpl in H. exact H.
  - apply Hw. constructor.
Qed.

(** X28. An update message for the workflow of the page: the page shows
    the updated workflow and hands it to the store; the store then holds,
    under the identifier of the page, the status, progress, stage, message
    and time of the message, keeps every other property of the stored
    workflow (its creation time for one), and leaves the other workflows
    alone. *)
Theorem message_updates_store
  (state : State Stats) (workflowId : string) (message : obj Val) (page : Page) :
  concerns workflowId message = true ->
  well_formed (workflows state) ->
  well_formed (stored workflowId (workflows state)) ->
  let updated := updatedWorkflow workflowId message in
  let page' := onMessage number_to_string workflowId message page in
  let state' := workflowReducer number_to_string state (UPDATE_WORKFLOW updated) in
  workflow page' = Some updated /\
  updates page' = updated :: updates page /\
  exists w,
    get workflowId (workflows state') = Some w /\
    prop "workflow_id" w = VStr workflowId /\
    prop "status" w = prop "status" message /\
    prop "progress" w = prop "progress" message /\
    prop "current_stage" w = prop "current_stage" message /\
    prop "message" w = prop "message" message /\
    prop "updated_at" w = prop "timestamp" message /\
    (forall k, ~ In k (keys updated) ->
       get k w = get k (stored workflowId (workflows state))) /\
    (forall id, id <> workflowId ->
       get id (workflows state') = get id (workflows state)).
Proof.
  intros Hc Hws Hold. cbv zeta.
  assert (Hwf : well_formed (updatedWorkflow workflowId message)).
  { unfold well_formed. simpl. repeat constructor; simpl; intuition discriminate. }
  assert (Hid : id_of number_to_string (updatedWorkflow workflowId message) = workflowId)
    by reflexivity.
  unfold onMessage. rewrite Hc.
  split; [reflexivity|]. split; [reflexivity|].
  rewrite reducer_update; rewrite ?Hid; try assumption.
  eexists. split; [apply get_set_eq|].
  unfold prop. rewrite !get_spread by exact Hwf.
  repeat split.
  - intros k Hk. rewrite get_spread by exact Hwf.
    apply get_None_keys in Hk. now rewrite Hk.
  - intros id Hne. now apply get_set_ne.
Qed.

(** X29. A message of another type, or about another workflow, changes
    nothing on the page and hands nothing to the store. *)
Theorem foreign_message_ignored (workflowId : string) (message : obj Val) (page : Page) :
  prop "type" message <> VStr "autonomous_workflow_update" \/
  prop "workflow_id" message <> VStr workflowId ->
  onMessage number_to_string workflowId message page = page.
Proof.
  intros H. unfold onMessage, concerns.
  assert (Hv : forall v s, v <> VStr s -> val_is v s = false).
  { intros v s Hne. destruct v; try reflexivity. simpl.
    apply String.eqb_neq. congruence. }
  destruct H as [H|H]; rewrite (Hv _ _ H); [reflexivity|].
  now rewrite andb_false_r.
Qed.

End StoreFacts.

Section StoreWitnesses.
Import JsObject WorkflowStore ProcessingMessages StoreSamples.

Ltac wf_now :=
  unfold well_formed; cbn; repeat constructor; cbn; intuition discriminate.

Lemma update_workflow_merges_witness :
  well_formed (workflows
    (workflowReducer print_none sample_state (UPDATE_WORKFLOW sample_update))).
Proof.
  destruct (update_workflow_merges print_none sample_state sample_update)
    as (merged & _ & _ & _ & H & _).
  - wf_now.
  - wf_now.
  - wf_now.
  - exact H.
Defined.

Lemma set_workflows_replaces_witness :
  get "wf-1" (workflows
    (workflowReducer print_none sample_state
       (SET_WORKFLOWS [sample_stored; sample_update])))
  = Some sample_update.
Proof.
  destruct (set_workflows_replaces print_none sample_state
              [sample_stored; sample_update] "wf-1") as (H & _).
  - repeat constructor; discriminate.
  - exact H.
Defined.

Lemma message_updates_store_witness :
  workflow (onMessage print_none "wf-1" sample_message
              {| workflow := None; toasts := []; scheduled := []; updates := [] |})
  = Some (updatedWorkflow "wf-1" sample_message).
Proof.
  destruct (message_updates_store print_none sample_state "wf-1" sample_message
              {| workflow := None; toasts := []; scheduled := []; updates := [] |})
    as (H & _).
  - reflexivity.
  - wf_now.
  - wf_now.
  - exact H.
Defined.

Lemma foreign_message_ignored_witness :
  onMessage print_none "wf-2" sample_message
    {| workflow := None; toasts := []; scheduled := []; updates := [] |}
  = {| workflow := None; toasts := []; scheduled := []; updates := [] |}.
Proof.
  apply (foreign_message_ignored print_none "wf-2" sample_message).
  right. discriminate.
Defined.

End StoreWitnesses.

(** ** WebSocket hook: the refs at any time, with one socket at a time *)

Section WebSocketRefsFacts.
Import WebSocket WebSocketRefs.

Lemma mounted_refs_ok : refs_ok mounted.
Proof. split; [simpl; lia|]. left. reflexivity. Qed.

(** Every event keeps the refs in order. *)
Ltac refs_simpl :=
  cbn [timers socket reconnectAttempts reconnects isConnected error app].

Lemma step_refs_ok (st : Hook) (ev : Event) : refs_ok st -> refs_ok (step st ev).
Proof.
  intros Hok. pose proof Hok as [Hr Ht]. destruct ev; unfold step.
  - (* open *)
    destruct (socket st) as [[| |]|] eqn:Hs; try exact Hok.
    destruct Ht as [Ht|(_ & Hc & _)]; [|congruence].
    split; [simpl; lia|]. left. exact Ht.
  - (* close *)
    destruct (socket st) as [[| |]|] eqn:Hs; try exact Hok.
    all: destruct Ht as [Ht|(_ & Hc & _)]; [|congruence].
    all: unfold refs_ok, onclose; refs_simpl; rewrite Ht.
    all: split; [exact Hr|].
    all: destruct (Z.ltb_spec (reconnectAttempts st) 5); [right|left]; auto.
  - (* error *)
    destruct (socket st) as [[| |]|] eqn:Hs; try exact Hok.
    all: unfold refs_ok, onerror; refs_simpl; rewrite Hs; split; assumption.
  - (* timer *)
    destruct (timers st) as [|t rest] eqn:Htm; [exact Hok|].
    destruct Ht as [Ht|(Ht & Hc & Hlt)]; [discriminate|].
    injection Ht as _ ->.
    unfold refs_ok, timer_callback, connect. refs_simpl.
    split; [lia|]. left. reflexivity.
Qed.

Lemma run_refs_ok (trace : list Event) (st : Hook) : refs_ok st -> refs_ok (run st trace).
Proof.
  revert st. induction trace as [|ev trace IH]; intros st H; [exact H|].
  change (run st (ev :: trace)) with (run (step st ev) trace).
  apply IH. now apply step_refs_ok.
Qed.

Lemma backoff_values (a : Z) :
  (0 <= a < 5)%Z -> In (backoff a) [1000; 2000; 4000; 8000; 16000]%Z.
Proof.
  intros H.
  assert (Hc : a = 0%Z \/ a = 1%Z \/ a = 2%Z \/ a = 3%Z \/ a = 4%Z) by lia.
  destruct Hc as [->|[->|[->|[->| ->]]]]; simpl; tauto.
Qed.

(** With one socket at a time, whatever it does, opens included: the
    attempt counter stays between 0 and 5, at most one reconnect timer is
    pending, and a pending timer waits 1, 2, 4, 8 or 16 seconds, namely
    [2 ^ attempts * 1000] ms for the attempts counted. *)
Lemma single_socket_refs_invariant (trace : list Event) :
  (0 <= reconnectAttempts (run mounted trace) <= 5)%Z /\
  (length (timers (run mounted trace)) <= 1)%nat /\
  (forall t, In t (timers (run mounted trace)) ->
     t = (2 ^ reconnectAttempts (run mounted trace) * 1000)%Z /\
     In t [1000; 2000; 4000; 8000; 16000]%Z).
Proof.
  destruct (run_refs_ok trace mounted mounted_refs_ok) as [Hr Ht].
  split; [exact Hr|].
  destruct Ht as [Ht|(Ht & _ & Hlt)]; rewrite Ht; simpl.
  - split; [lia|contradiction].
  - split; [lia|]. intros t [<-|[]]. split; [reflexivity|].
    apply backoff_values. lia.
Qed.

(** With one socket at a time, however many opens and failures came
    before: without a new successful open at most 5 more reconnects are
    made. *)
Lemma single_socket_reconnects_bounded (before after : list Event) :
  forallb (fun ev => negb (is_open_event ev)) after = true ->
  (reconnects (run mounted (before ++ after))
   <= reconnects (run mounted before) + 5)%nat.
Proof.
  intros Hno. unfold run at 1. rewrite fold_left_app.
  fold (run mounted before). fold (run (run mounted before) after).
  destruct (run_refs_ok before mounted mounted_refs_ok) as [Hr Ht].
  assert (Hok : timers_ok (run mounted before)).
  { destruct Ht as [Ht|(Ht & Hc & Hlt)]; [left; exact Ht|].
    right. split; [eexists; exact Ht|]. split; assumption. }
  pose proof (run_budget after (run mounted before) Hno Hok) as H.
  assert (Hb : (budget (run mounted before) <= 5)%nat).
  { unfold budget.
    destruct (timers (run mounted before)); destruct (socket (run mounted before)) as [[| |]|];
      lia. }
  lia.
Qed.

End WebSocketRefsFacts.

(** ** WebSocket hook: the mounting effect and the reconnect bound *)

Section WebSocketEffectFacts.
Import WebSocketEffect.

Lemma view_mounted : view mounted = WebSocket.mounted.
Proof. reflexivity. Qed.

Lemma mounted_single : single mounted.
Proof. split; [reflexivity|]. split; [discriminate|]. left. reflexivity. Qed.

(** While one socket is used at a time, the events of sockets and timers
    move the hook as [WebSocket.step] says. *)
Lemma step_view (st : Hook) (ev : Event) :
  single st -> is_hook_event ev = true ->
  single (step st ev) /\
  view (step st ev) = WebSocket.run (view st) (view_event ev).
Proof.
  intros Hsingle Hev. pose proof Hsingle as (Hd & Hc & Ht).
  destruct ev; try discriminate; clear Hev; unfold step.
  - (* open *)
    destruct (current st) as [[| | |]|] eqn:Hs; try congruence;
      try (split; [exact Hsingle|]; unfold view, WebSocket.run; simpl;
           rewrite Hs; reflexivity).
    destruct Ht as [Ht|[_ Hx]]; [|congruence].
    split.
    + split; [exact Hd|]. split; [discriminate|]. left. exact Ht.
    + unfold view, WebSocket.run. simpl. rewrite Hs. reflexivity.
  - (* close *)
    destruct (current st) as [[| | |]|] eqn:Hs; try congruence;
      try (split; [exact Hsingle|]; unfold view, WebSocket.run; simpl;
           rewrite Hs; reflexivity).
    all: destruct Ht as [Ht|[_ Hx]]; [|congruence].
    all: cbn [alive]; unfold onclose, set_current;
      cbn [reconnectAttempts timers current detached next_id reconnectTimeout
           isConnected error reconnects connects].
    all: destruct (Z.ltb_spec (reconnectAttempts st) 5) as [Hlt|Hge].
    all: split;
      [split; [exact Hd|]; split; [discriminate|];
       cbn [timers current]; rewrite ?Ht;
       first [left; reflexivity | right; split; [eexists; reflexivity|reflexivity]]
      |unfold view, WebSocket.run; simpl; rewrite Hs, Ht; simpl;
       unfold WebSocket.onclose; simpl;
       destruct (Z.ltb_spec (reconnectAttempts st) 5); try lia; reflexivity].
  - (* error *)
    destruct (current st) as [[| | |]|] eqn:Hs; try congruence;
      try (split; [exact Hsingle|]; unfold view, WebSocket.run; simpl;
           rewrite Hs; reflexivity).
    all: cbn [alive]; split;
      [split; [exact Hd|]; split; [simpl; rewrite Hs; discriminate|];
       simpl; rewrite Hs; exact Ht
      |unfold view, WebSocket.run; simpl; rewrite Hs; reflexivity].
  - (* detached open *)
    rewrite Hd. destruct i; simpl; (split; [exact Hsingle|reflexivity]).
  - rewrite Hd. destruct i; simpl; (split; [exact Hsingle|reflexivity]).
  - rewrite Hd. destruct i; simpl; (split; [exact Hsingle|reflexivity]).
  - (* timer *)
    destruct Ht as [Ht|[[t Ht] Hx]].
    + rewrite Ht. destruct i; simpl; (split; [exact Hsingle|]).
      * unfold view, WebSocket.run. simpl. rewrite Ht. reflexivity.
      * reflexivity.
    + rewrite Ht. destruct i as [|i].
      * simpl. split.
        -- split; [simpl; rewrite Hx; simpl; exact Hd|].
           split; [discriminate|]. left. reflexivity.
        -- unfold view, WebSocket.run. simpl. rewrite Ht, Hx. reflexivity.
      * destruct i; simpl; (split; [exact Hsingle|reflexivity]).
Qed.

Lemma run_view (trace : list Event) (st : Hook) :
  single st -> forallb is_hook_event trace = true ->
  single (run st trace) /\
  view (run st trace) = WebSocket.run (view st) (flat_map view_event trace).
Proof.
  revert st. induction trace as [|ev trace IH]; intros st Hs Hev.
  - split; [exact Hs|reflexivity].
  - simpl in Hev. apply andb_true_iff in Hev as [Hev Hrest].
    destruct (step_view st ev Hs Hev) as [Hs' Hv].
    destruct (IH (step st ev) Hs' Hrest) as [Hs'' Hv''].
    change (run st (ev :: trace)) with (run (step st ev) trace).
    split; [exact Hs''|].
    rewrite Hv'', Hv. simpl flat_map. unfold WebSocket.run.
    now rewrite fold_left_app.
Qed.

Lemma view_open_free (trace : list Event) :
  forallb (fun ev => negb (is_open_event ev)) trace = true ->
  forallb (fun ev => negb (WebSocket.is_open_event ev)) (flat_map view_event trace) = true.
Proof.
  induction trace as [|ev trace IH]; [reflexivity|].
  simpl. intros H. apply andb_true_iff in H as [Hev Hrest].
  rewrite forallb_app, (IH Hrest), andb_true_r.
  destruct ev as [| | |i|i|i|[|i]| | |]; try reflexivity; discriminate.
Qed.

(** C10. The guard, the delay and the reset are as claimed: a close
    schedules a reconnect, after [2 ^ attempts * 1000] ms, only while
    fewer than 5 attempts are counted, and an open sets the count to 0.
    The bound is not: when the page renders again while the first
    connection is being made, the sockets closed by the cleanup and the
    last one each schedule a reconnect, two timers of one second are
    pending, and with every socket failing and none ever opening 6
    reconnects are made, the counter ending at 6; so it is when the sockets
    close without error events and the timers fire before their sockets
    fail.  When the first connection fails before any render, the render
    for the error state connects once more without counting: 7 sockets are
    made, 6 of them after the first failure.  The same failures with the
    effect not run again make 5 reconnects. *)
Theorem render_breaks_reconnect_bound :
  (forall st, (reconnectAttempts st < 5)%Z ->
     map delay (timers (onclose st)) =
       (map delay (timers st) ++ [(2 ^ reconnectAttempts st * 1000)%Z])%list) /\
  (forall st, (5 <= reconnectAttempts st)%Z -> timers (onclose st) = timers st) /\
  (forall st, reconnectAttempts (onopen st) = 0%Z) /\
  forallb (fun ev => negb (is_open_event ev)) render_then_failures = true /\
  map delay (timers (run mounted (firstn 8 render_then_failures))) = [1000; 1000]%Z /\
  reconnects (run mounted render_then_failures) = 6%nat /\
  reconnectAttempts (run mounted render_then_failures) = 6%Z /\
  timers (run mounted render_then_failures) = [] /\
  forallb (fun ev => negb (is_open_event ev)) render_then_slow_failures = true /\
  reconnects (run mounted render_then_slow_failures) = 6%nat /\
  reconnectAttempts (run mounted render_then_slow_failures) = 6%Z /\
  forallb (fun ev => negb (is_open_event ev)) failure_then_render = true /\
  reconnects (run mounted failure_then_render) = 5%nat /\
  connects (run mounted failure_then_render) = 7%nat /\
  reconnects (run mounted six_failures) = 5%nat /\
  connects (run mounted six_failures) = 6%nat.
Proof.
  split; [|split; [|split; [reflexivity|repeat split]]].
  - intros st H. unfold onclose.
    destruct (Z.ltb_spec (reconnectAttempts st) 5); [|lia].
    cbn [timers]. rewrite map_app. reflexivity.
  - intros st H. unfold onclose.
    destruct (Z.ltb_spec (reconnectAttempts st) 5); [lia|reflexivity].
Qed.

(** X23. While the mounting effect is not run again (the callback given
    to the hook is stable, the component stays mounted and [reconnect] is
    not called), whatever the sockets do, opens included: the hook has one
    socket at a time, the attempt counter stays between 0 and 5, at most one
    reconnect timer is pending, and a pending timer waits 1, 2, 4, 8 or 16
    seconds, namely [2 ^ attempts * 1000] ms for the attempts counted. *)
Theorem reconnect_refs_invariant (trace : list Event) :
  forallb is_hook_event trace = true ->
  detached (run mounted trace) = [] /\
  (0 <= reconnectAttempts (run mounted trace) <= 5)%Z /\
  (length (timers (run mounted trace)) <= 1)%nat /\
  (forall t, In t (timers (run mounted trace)) ->
     delay t = (2 ^ reconnectAttempts (run mounted trace) * 1000)%Z /\
     In (delay t) [1000; 2000; 4000; 8000; 16000]%Z).
Proof.
  intros Hev.
  destruct (run_view trace mounted mounted_single Hev) as [(Hd & _ & _) Hv].
  rewrite view_mounted in Hv.
  pose proof (single_socket_refs_invariant (flat_map view_event trace)) as (Hr & Hl & Ht).
  rewrite <- Hv in Hr, Hl, Ht. cbn [view WebSocket.reconnectAttempts WebSocket.timers] in Hr, Hl, Ht.
  split; [exact Hd|]. split; [exact Hr|].
  split; [now rewrite length_map in Hl|].
  intros t Hin. apply Ht. now apply in_map.
Qed.

Lemma reconnect_refs_invariant_witness :
  detached (run mounted [EvOpen; EvClose; EvTimer 0; EvError; EvClose]) = [] /\
  (0 <= reconnectAttempts (run mounted [EvOpen; EvClose; EvTimer 0; EvError; EvClose]) <= 5)%Z /\
  (length (timers (run mounted [EvOpen; EvClose; EvTimer 0; EvError; EvClose])) <= 1)%nat.
Proof.
  destruct (reconnect_refs_invariant [EvOpen; EvClose; EvTimer 0; EvError; EvClose] eq_refl)
    as (Hd & Hr & Hl & _).
  split; [exact Hd|]. split; [exact Hr|exact Hl].
Defined.

(** X24. While the mounting effect is not run again, at any time after
    the hook is mounted, however many opens and failures came before, the
    sockets can close, fail and the timers fire as they will: without a new
    successful open at most 5 more reconnects are made. *)
Theorem reconnects_bounded_from_any_state (before after : list Event) :
  forallb is_hook_event (before ++ after) = true ->
  forallb (fun ev => negb (is_open_event ev)) after = true ->
  (reconnects (run mounted (before ++ after))
   <= reconnects (run mounted before) + 5)%nat.
Proof.
  intros Hev Hno.
  pose proof Hev as Hev'. rewrite forallb_app in Hev'.
  apply andb_true_iff in Hev' as [Hb _].
  destruct (run_view (before ++ after) mounted mounted_single Hev) as [_ Hv].
  destruct (run_view before mounted mounted_single Hb) as [_ Hvb].
  rewrite view_mounted in Hv, Hvb. rewrite flat_map_app in Hv.
  pose proof (single_socket_reconnects_bounded
                (flat_map view_event before) (flat_map view_event after)
                (view_open_free after Hno)) as H.
  rewrite <- Hv, <- Hvb in H. exact H.
Qed.

Lemma reconnects_bounded_from_any_state_witness :
  (reconnects (run mounted ([EvOpen; EvClose; EvTimer 0; EvOpen] ++ six_failures))
   <= reconnects (run mounted [EvOpen; EvClose; EvTimer 0; EvOpen]) + 5)%nat.
Proof.
  apply (reconnects_bounded_from_any_state [EvOpen; EvClose; EvTimer 0; EvOpen] six_failures);
    reflexivity.
Defined.

End WebSocketEffectFacts.
